(** * pose_fusion_node: weighted fusion of pose and twist estimates

    A shallow embedding of [pose_fusion/src/pose_fusion_node.cpp].

    - C++ [double] is IEEE 754 binary64, i.e. Rocq's primitive [float];
      [*] and [+] below are the hardware operations, NaN and the
      infinities included.
    - A [std::array<double, 36>] is a [list float]; every array the node
      builds has 36 entries and the loops only touch indices below 36.
    - A [SharedPtr] member that starts out null is an [option].
    - The node's effects (publishing, broadcasting, reading the clock,
      dereferencing a cached pointer) live in the small monad [M]. *)

From Stdlib Require Import ZArith String Floats Lia.
From stdpp Require Import base list.

Local Open Scope float_scope.

(** ** Message types (the fields of the ROS 2 messages the node touches) *)

Module Time.
(** [builtin_interfaces::msg::Time]: an [int32] and a [uint32]. *)
Record t := mk { sec : Z; nanosec : Z }.
End Time.

Module Header.
Record t := mk { stamp : Time.t; frame_id : string }.
Definition set_stamp (v : Time.t) (h : t) : t := mk v (frame_id h).
Definition set_frame_id (v : string) (h : t) : t := mk (stamp h) v.
Definition default : t := mk (Time.mk 0 0) "".
End Header.

Module Point.
Record t := mk { x : float; y : float; z : float }.
Definition set_x (v : float) (p : t) : t := mk v (y p) (z p).
Definition set_y (v : float) (p : t) : t := mk (x p) v (z p).
Definition set_z (v : float) (p : t) : t := mk (x p) (y p) v.
Definition default : t := mk 0 0 0.
End Point.

Module Vector3.
Record t := mk { x : float; y : float; z : float }.
Definition set_x (v : float) (p : t) : t := mk v (y p) (z p).
Definition set_y (v : float) (p : t) : t := mk (x p) v (z p).
Definition set_z (v : float) (p : t) : t := mk (x p) (y p) v.
Definition default : t := mk 0 0 0.
End Vector3.

Module Quaternion.
Record t := mk { x : float; y : float; z : float; w : float }.
Definition set_x (v : float) (q : t) : t := mk v (y q) (z q) (w q).
Definition set_y (v : float) (q : t) : t := mk (x q) v (z q) (w q).
Definition set_z (v : float) (q : t) : t := mk (x q) (y q) v (w q).
Definition set_w (v : float) (q : t) : t := mk (x q) (y q) (z q) v.
(** The message definition initialises [w] to 1. *)
Definition default : t := mk 0 0 0 1.
End Quaternion.

(** [std::array<double, 36>], row-major 6x6. *)
Abbreviation array36 := (list float).

(** [a[i]] read and [a[i] = v] write. Out-of-range access is undefined in
    C++; here a read yields 0 and a write does nothing, and neither
    happens: every index used is below 36. *)
Definition at36 (a : array36) (i : nat) : float := default 0 (a !! i).
Definition set36 (i : nat) (v : float) (a : array36) : array36 := <[i := v]> a.
Definition zeros36 : array36 := replicate 36 0.

Module Pose.
Record t := mk { position : Point.t; orientation : Quaternion.t }.
Definition on_position (f : Point.t -> Point.t) (p : t) : t :=
  mk (f (position p)) (orientation p).
Definition set_orientation (v : Quaternion.t) (p : t) : t :=
  mk (position p) v.
Definition default : t := mk Point.default Quaternion.default.
End Pose.

Module PoseWithCovariance.
Record t := mk { pose : Pose.t; covariance : array36 }.
Definition on_pose (f : Pose.t -> Pose.t) (p : t) : t :=
  mk (f (pose p)) (covariance p).
Definition on_covariance (f : array36 -> array36) (p : t) : t :=
  mk (pose p) (f (covariance p)).
Definition default : t := mk Pose.default zeros36.
End PoseWithCovariance.

Module PoseWithCovarianceStamped.
Record t := mk { header : Header.t; pose : PoseWithCovariance.t }.
Definition on_header (f : Header.t -> Header.t) (m : t) : t :=
  mk (f (header m)) (pose m).
Definition on_pose (f : PoseWithCovariance.t -> PoseWithCovariance.t)
    (m : t) : t :=
  mk (header m) (f (pose m)).
Definition default : t := mk Header.default PoseWithCovariance.default.
End PoseWithCovarianceStamped.

Module Twist.
Record t := mk { linear : Vector3.t; angular : Vector3.t }.
Definition on_linear (f : Vector3.t -> Vector3.t) (p : t) : t :=
  mk (f (linear p)) (angular p).
Definition on_angular (f : Vector3.t -> Vector3.t) (p : t) : t :=
  mk (linear p) (f (angular p)).
Definition default : t := mk Vector3.default Vector3.default.
End Twist.

Module TwistWithCovariance.
Record t := mk { twist : Twist.t; covariance : array36 }.
Definition on_twist (f : Twist.t -> Twist.t) (p : t) : t :=
  mk (f (twist p)) (covariance p).
Definition on_covariance (f : array36 -> array36) (p : t) : t :=
  mk (twist p) (f (covariance p)).
Definition default : t := mk Twist.default zeros36.
End TwistWithCovariance.

Module TwistWithCovarianceStamped.
Record t := mk { header : Header.t; twist : TwistWithCovariance.t }.
Definition on_header (f : Header.t -> Header.t) (m : t) : t :=
  mk (f (header m)) (twist m).
Definition on_twist (f : TwistWithCovariance.t -> TwistWithCovariance.t)
    (m : t) : t :=
  mk (header m) (f (twist m)).
Definition default : t := mk Header.default TwistWithCovariance.default.
End TwistWithCovarianceStamped.

Module Transform.
Record t := mk { translation : Vector3.t; rotation : Quaternion.t }.
Definition on_translation (f : Vector3.t -> Vector3.t) (p : t) : t :=
  mk (f (translation p)) (rotation p).
Definition on_rotation (f : Quaternion.t -> Quaternion.t) (p : t) : t :=
  mk (translation p) (f (rotation p)).
Definition default : t := mk Vector3.default Quaternion.default.
End Transform.

Module TransformStamped.
Record t := mk
  { header : Header.t; child_frame_id : string; transform : Transform.t }.
Definition on_header (f : Header.t -> Header.t) (m : t) : t :=
  mk (f (header m)) (child_frame_id m) (transform m).
Definition set_child_frame_id (v : string) (m : t) : t :=
  mk (header m) v (transform m).
Definition on_transform (f : Transform.t -> Transform.t) (m : t) : t :=
  mk (header m) (child_frame_id m) (f (transform m)).
Definition default : t := mk Header.default "" Transform.default.
End TransformStamped.

(** [Eigen::Vector3d], built from three doubles and read back with
    [x()], [y()], [z()]. *)
Module Vector3d.
Record t := mk { x : float; y : float; z : float }.
End Vector3d.

(** ** The node *)

(** The data members of [PoseFusionNode] that the callbacks read or
    write. The subscriptions, publishers and the broadcaster are handles
    to the middleware; what is sent through them is an [Emission]. *)
Record PoseFusionNode := mkNode
  { last_lidar_msg_ : option PoseWithCovarianceStamped.t;
    last_gnss_msg_ : option PoseWithCovarianceStamped.t;
    last_ekf_twist_msg_ : option TwistWithCovarianceStamped.t;
    last_filter_twist_msg_ : option TwistWithCovarianceStamped.t;
    lidar_weight_ : float;
    gnss_weight_ : float;
    ekf_twist_weight_ : float;
    filter_twist_weight_ : float }.

(** The state the constructor leaves: four null pointers and the default
    member initialisers of the weights. *)
Definition PoseFusionNode_new : PoseFusionNode :=
  mkNode None None None None 0.5 0.5 0.5 0.5.

Definition set_last_lidar_msg_ (v : option PoseWithCovarianceStamped.t)
    (n : PoseFusionNode) : PoseFusionNode :=
  mkNode v (last_gnss_msg_ n) (last_ekf_twist_msg_ n)
    (last_filter_twist_msg_ n) (lidar_weight_ n) (gnss_weight_ n)
    (ekf_twist_weight_ n) (filter_twist_weight_ n).

Definition set_last_gnss_msg_ (v : option PoseWithCovarianceStamped.t)
    (n : PoseFusionNode) : PoseFusionNode :=
  mkNode (last_lidar_msg_ n) v (last_ekf_twist_msg_ n)
    (last_filter_twist_msg_ n) (lidar_weight_ n) (gnss_weight_ n)
    (ekf_twist_weight_ n) (filter_twist_weight_ n).

Definition set_last_ekf_twist_msg_ (v : option TwistWithCovarianceStamped.t)
    (n : PoseFusionNode) : PoseFusionNode :=
  mkNode (last_lidar_msg_ n) (last_gnss_msg_ n) v
    (last_filter_twist_msg_ n) (lidar_weight_ n) (gnss_weight_ n)
    (ekf_twist_weight_ n) (filter_twist_weight_ n).

Definition set_last_filter_twist_msg_
    (v : option TwistWithCovarianceStamped.t)
    (n : PoseFusionNode) : PoseFusionNode :=
  mkNode (last_lidar_msg_ n) (last_gnss_msg_ n) (last_ekf_twist_msg_ n)
    v (lidar_weight_ n) (gnss_weight_ n)
    (ekf_twist_weight_ n) (filter_twist_weight_ n).

(** What leaves the node, by the handle it goes through. *)
Inductive Emission :=
  | final_pose_pub_ (m : PoseWithCovarianceStamped.t)
  | fused_twist_pub_ (m : TwistWithCovarianceStamped.t)
  | tf_broadcaster_ (m : TransformStamped.t).

(** ** The effects of a member function

    A member function runs at one reading of the node's clock, reads and
    writes the node's members, appends to what was sent, and faults
    ([None]) when it dereferences a null pointer. *)
Definition M (A : Type) : Type :=
  Time.t -> PoseFusionNode -> option (A * PoseFusionNode * list Emission).

Definition ret {A} (a : A) : M A := fun _ n => Some (a, n, []).

Definition bind {A B} (c : M A) (k : A -> M B) : M B :=
  fun clk n =>
    match c clk n with
    | None => None
    | Some (a, n1, out1) =>
        match k a clk n1 with
        | None => None
        | Some (b, n2, out2) => Some (b, n2, out1 ++ out2)
        end
    end.

Notation "x <- c ;; k" := (bind c (fun x => k))
  (at level 100, c at next level, right associativity).
Notation "c ;; k" := (bind c (fun _ => k))
  (at level 100, right associativity).

(** [*this]. *)
Definition this : M PoseFusionNode := fun _ n => Some (n, n, []).
(** Assignment to members of [*this]. *)
Definition modify (f : PoseFusionNode -> PoseFusionNode) : M unit :=
  fun _ n => Some (tt, f n, []).
(** [this->now()]. *)
Definition now : M Time.t := fun clk n => Some (clk, n, []).
(** [p->], on a pointer that may be null. *)
Definition deref {A} (p : option A) : M A :=
  fun _ n => match p with Some a => Some (a, n, []) | None => None end.
(** [publish] and [sendTransform]. *)
Definition send (e : Emission) : M unit := fun _ n => Some (tt, n, [e]).

(** [for (size_t i = lo; i < hi; ++i) body], on the variables [S] the
    body assigns. *)
Definition for_range {S} (lo hi : nat) (body : nat -> S -> S) (s : S) : S :=
  foldl (fun acc i => body i acc) s (seq lo (hi - lo)).

(** ** Member functions *)

(** [broadcastTransform(fused_pose)], lines 139-158. *)
Definition broadcastTransform (fused_pose : PoseWithCovarianceStamped.t)
    : M unit :=
  let pose_of m := PoseWithCovariance.pose (PoseWithCovarianceStamped.pose m) in
  let transformStamped := TransformStamped.default in
  let transformStamped :=
    TransformStamped.on_header
      (Header.set_stamp
         (Header.stamp (PoseWithCovarianceStamped.header fused_pose)))
      transformStamped in
  let transformStamped :=
    TransformStamped.on_header (Header.set_frame_id "map") transformStamped in
  let transformStamped :=
    TransformStamped.set_child_frame_id "base_link" transformStamped in
  let transformStamped :=
    TransformStamped.on_transform (Transform.on_translation
      (Vector3.set_x (Point.x (Pose.position (pose_of fused_pose)))))
      transformStamped in
  let transformStamped :=
    TransformStamped.on_transform (Transform.on_translation
      (Vector3.set_y (Point.y (Pose.position (pose_of fused_pose)))))
      transformStamped in
  let transformStamped :=
    TransformStamped.on_transform (Transform.on_translation
      (Vector3.set_z (Point.z (Pose.position (pose_of fused_pose)))))
      transformStamped in
  let transformStamped :=
    TransformStamped.on_transform (Transform.on_rotation
      (Quaternion.set_x (Quaternion.x (Pose.orientation (pose_of fused_pose)))))
      transformStamped in
  let transformStamped :=
    TransformStamped.on_transform (Transform.on_rotation
      (Quaternion.set_y (Quaternion.y (Pose.orientation (pose_of fused_pose)))))
      transformStamped in
  let transformStamped :=
    TransformStamped.on_transform (Transform.on_rotation
      (Quaternion.set_z (Quaternion.z (Pose.orientation (pose_of fused_pose)))))
      transformStamped in
  let transformStamped :=
    TransformStamped.on_transform (Transform.on_rotation
      (Quaternion.set_w (Quaternion.w (Pose.orientation (pose_of fused_pose)))))
      transformStamped in
  send (tf_broadcaster_ transformStamped).

(** [fusePoses()], lines 85-110. *)
Definition fusePoses : M unit :=
  self <- this ;;
  lidar <- deref (last_lidar_msg_ self) ;;
  gnss <- deref (last_gnss_msg_ self) ;;
  let pose_of m := PoseWithCovariance.pose (PoseWithCovarianceStamped.pose m) in
  let cov_of m :=
    PoseWithCovariance.covariance (PoseWithCovarianceStamped.pose m) in
  let lidar_pos :=
    Vector3d.mk (Point.x (Pose.position (pose_of lidar)))
      (Point.y (Pose.position (pose_of lidar)))
      (Point.z (Pose.position (pose_of lidar))) in
  let gnss_pos :=
    Vector3d.mk (Point.x (Pose.position (pose_of gnss)))
      (Point.y (Pose.position (pose_of gnss)))
      (Point.z (Pose.position (pose_of gnss))) in
  let fused_pose := PoseWithCovarianceStamped.default in
  stamp <- now ;;
  let fused_pose :=
    PoseWithCovarianceStamped.on_header (Header.set_stamp stamp) fused_pose in
  let fused_pose :=
    PoseWithCovarianceStamped.on_header (Header.set_frame_id "map")
      fused_pose in
  let on_position f :=
    PoseWithCovarianceStamped.on_pose
      (PoseWithCovariance.on_pose (Pose.on_position f)) in
  let fused_pose :=
    on_position
      (Point.set_x (lidar_weight_ self * Vector3d.x lidar_pos
                    + gnss_weight_ self * Vector3d.x gnss_pos))
      fused_pose in
  let fused_pose :=
    on_position
      (Point.set_y (lidar_weight_ self * Vector3d.y lidar_pos
                    + gnss_weight_ self * Vector3d.y gnss_pos))
      fused_pose in
  let fused_pose :=
    on_position
      (Point.set_z (lidar_weight_ self * Vector3d.z lidar_pos
                    + gnss_weight_ self * Vector3d.z gnss_pos))
      fused_pose in
  let fused_pose :=
    PoseWithCovarianceStamped.on_pose
      (PoseWithCovariance.on_pose
         (Pose.set_orientation (Pose.orientation (pose_of lidar))))
      fused_pose in
  let fused_pose :=
    for_range 0 36
      (fun i =>
         PoseWithCovarianceStamped.on_pose
           (PoseWithCovariance.on_covariance
              (set36 i (lidar_weight_ self * at36 (cov_of lidar) i
                        + gnss_weight_ self * at36 (cov_of gnss) i))))
      fused_pose in
  send (final_pose_pub_ fused_pose) ;;
  broadcastTransform fused_pose.

(** [fuseTwists()], lines 112-137. *)
Definition fuseTwists : M unit :=
  self <- this ;;
  let fused_twist := TwistWithCovarianceStamped.default in
  stamp <- now ;;
  let fused_twist :=
    TwistWithCovarianceStamped.on_header (Header.set_stamp stamp)
      fused_twist in
  let fused_twist :=
    TwistWithCovarianceStamped.on_header (Header.set_frame_id "map")
      fused_twist in
  let on_linear f :=
    TwistWithCovarianceStamped.on_twist
      (TwistWithCovariance.on_twist (Twist.on_linear f)) in
  let on_angular f :=
    TwistWithCovarianceStamped.on_twist
      (TwistWithCovariance.on_twist (Twist.on_angular f)) in
  let angular_z m :=
    Vector3.z (Twist.angular
      (TwistWithCovariance.twist (TwistWithCovarianceStamped.twist m))) in
  let cov_of m :=
    TwistWithCovariance.covariance (TwistWithCovarianceStamped.twist m) in
  let fused_twist := on_linear (Vector3.set_x 0) fused_twist in
  let fused_twist := on_linear (Vector3.set_y 0) fused_twist in
  let fused_twist := on_linear (Vector3.set_z 0) fused_twist in
  let fused_twist := on_angular (Vector3.set_x 0) fused_twist in
  let fused_twist := on_angular (Vector3.set_y 0) fused_twist in
  ekf <- deref (last_ekf_twist_msg_ self) ;;
  filter <- deref (last_filter_twist_msg_ self) ;;
  let fused_twist :=
    on_angular
      (Vector3.set_z (ekf_twist_weight_ self * angular_z ekf
                      + filter_twist_weight_ self * angular_z filter))
      fused_twist in
  let fused_twist :=
    for_range 0 36
      (fun i =>
         TwistWithCovarianceStamped.on_twist
           (TwistWithCovariance.on_covariance
              (set36 i (ekf_twist_weight_ self * at36 (cov_of ekf) i
                        + filter_twist_weight_ self * at36 (cov_of filter) i))))
      fused_twist in
  send (fused_twist_pub_ fused_twist).

(** [if (p) body]: the body runs when the pointer is not null. *)
Definition when_set {A} (p : option A) (body : M unit) : M unit :=
  match p with Some _ => body | None => ret tt end.

(** The four subscription callbacks, lines 45-83. *)
Definition lidarPoseCallback (lidar_msg : PoseWithCovarianceStamped.t)
    : M unit :=
  modify (set_last_lidar_msg_ (Some lidar_msg)) ;;
  self <- this ;;
  when_set (last_gnss_msg_ self) fusePoses.

Definition gnssPoseCallback (gnss_msg : PoseWithCovarianceStamped.t)
    : M unit :=
  modify (set_last_gnss_msg_ (Some gnss_msg)) ;;
  self <- this ;;
  when_set (last_lidar_msg_ self) fusePoses.

Definition ekfTwistCallback (ekf_twist_msg : TwistWithCovarianceStamped.t)
    : M unit :=
  modify (set_last_ekf_twist_msg_ (Some ekf_twist_msg)) ;;
  self <- this ;;
  when_set (last_filter_twist_msg_ self) fuseTwists.

Definition filterTwistCallback
    (filter_twist_msg : TwistWithCovarianceStamped.t) : M unit :=
  modify (set_last_filter_twist_msg_ (Some filter_twist_msg)) ;;
  self <- this ;;
  when_set (last_ekf_twist_msg_ self) fuseTwists.

(** ** The executor

    [rclcpp::spin] in [main] hands the node one message at a time; each
    delivery runs the callback of the subscription the message came in
    on, at the clock reading of that moment. *)
Inductive Arrival :=
  | lidar_pose_sub_ (m : PoseWithCovarianceStamped.t)
  | gnss_pose_sub_ (m : PoseWithCovarianceStamped.t)
  | ekf_twist_sub_ (m : TwistWithCovarianceStamped.t)
  | filter_twist_sub_ (m : TwistWithCovarianceStamped.t).

Definition dispatch (a : Arrival) : M unit :=
  match a with
  | lidar_pose_sub_ m => lidarPoseCallback m
  | gnss_pose_sub_ m => gnssPoseCallback m
  | ekf_twist_sub_ m => ekfTwistCallback m
  | filter_twist_sub_ m => filterTwistCallback m
  end.

(** Deliver a sequence of arrivals, each with its clock reading; the
    result is the node afterwards and everything sent, in order. *)
Fixpoint spin (arrivals : list (Time.t * Arrival)) (n : PoseFusionNode)
    : option (PoseFusionNode * list Emission) :=
  match arrivals with
  | [] => Some (n, [])
  | (clk, a) :: rest =>
      match dispatch a clk n with
      | None => None
      | Some (_, n1, out1) =>
          match spin rest n1 with
          | None => None
          | Some (n2, out2) => Some (n2, out1 ++ out2)
          end
      end
  end.

(** ** Vocabulary of the statements *)

(** The parts of a stamped pose, a stamped twist and a stamped transform
    that the statements read. *)
Definition pose_stamp (m : PoseWithCovarianceStamped.t) : Time.t :=
  Header.stamp (PoseWithCovarianceStamped.header m).
Definition pose_position (m : PoseWithCovarianceStamped.t) : Point.t :=
  Pose.position (PoseWithCovariance.pose (PoseWithCovarianceStamped.pose m)).
Definition pose_orientation (m : PoseWithCovarianceStamped.t)
    : Quaternion.t :=
  Pose.orientation
    (PoseWithCovariance.pose (PoseWithCovarianceStamped.pose m)).
Definition pose_covariance (m : PoseWithCovarianceStamped.t) : array36 :=
  PoseWithCovariance.covariance (PoseWithCovarianceStamped.pose m).

Definition twist_stamp (m : TwistWithCovarianceStamped.t) : Time.t :=
  Header.stamp (TwistWithCovarianceStamped.header m).
Definition twist_linear (m : TwistWithCovarianceStamped.t) : Vector3.t :=
  Twist.linear
    (TwistWithCovariance.twist (TwistWithCovarianceStamped.twist m)).
Definition twist_angular (m : TwistWithCovarianceStamped.t) : Vector3.t :=
  Twist.angular
    (TwistWithCovariance.twist (TwistWithCovarianceStamped.twist m)).
Definition twist_covariance (m : TwistWithCovarianceStamped.t) : array36 :=
  TwistWithCovariance.covariance (TwistWithCovarianceStamped.twist m).

Definition tf_stamp (m : TransformStamped.t) : Time.t :=
  Header.stamp (TransformStamped.header m).
Definition tf_parent (m : TransformStamped.t) : string :=
  Header.frame_id (TransformStamped.header m).
Definition tf_translation (m : TransformStamped.t) : Vector3.t :=
  Transform.translation (TransformStamped.transform m).
Definition tf_rotation (m : TransformStamped.t) : Quaternion.t :=
  Transform.rotation (TransformStamped.transform m).

(** The four input roles, named after the members that cache them, and
    the two pairs that are fused. *)
Inductive Role := lidar | gnss | ekf_twist | filter_twist.
Inductive Pair := position_pair | rate_pair.

#[global] Instance Role_eq_dec : EqDecision Role.
Proof. solve_decision. Defined.
#[global] Instance Pair_eq_dec : EqDecision Pair.
Proof. solve_decision. Defined.

Definition role_of (a : Arrival) : Role :=
  match a with
  | lidar_pose_sub_ _ => lidar
  | gnss_pose_sub_ _ => gnss
  | ekf_twist_sub_ _ => ekf_twist
  | filter_twist_sub_ _ => filter_twist
  end.

Definition pair_of (r : Role) : Pair :=
  match r with
  | lidar | gnss => position_pair
  | ekf_twist | filter_twist => rate_pair
  end.

Definition counterpart (r : Role) : Role :=
  match r with
  | lidar => gnss
  | gnss => lidar
  | ekf_twist => filter_twist
  | filter_twist => ekf_twist
  end.

(** Whether the node holds a sample of a role. *)
Definition cached (n : PoseFusionNode) (r : Role) : bool :=
  match r with
  | lidar => bool_decide (is_Some (last_lidar_msg_ n))
  | gnss => bool_decide (is_Some (last_gnss_msg_ n))
  | ekf_twist => bool_decide (is_Some (last_ekf_twist_msg_ n))
  | filter_twist => bool_decide (is_Some (last_filter_twist_msg_ n))
  end.

(** The member assignment each callback starts with. *)
Definition store (a : Arrival) : PoseFusionNode -> PoseFusionNode :=
  match a with
  | lidar_pose_sub_ m => set_last_lidar_msg_ (Some m)
  | gnss_pose_sub_ m => set_last_gnss_msg_ (Some m)
  | ekf_twist_sub_ m => set_last_ekf_twist_msg_ (Some m)
  | filter_twist_sub_ m => set_last_filter_twist_msg_ (Some m)
  end.

(** The fusion routine of a pair. *)
Definition fuse (p : Pair) : M unit :=
  match p with position_pair => fusePoses | rate_pair => fuseTwists end.

(** The pair an emission belongs to: the fused pose and the transform
    derived from it come from the position pair, the fused twist from
    the rate pair. *)
Definition emitted_by (e : Emission) : Pair :=
  match e with
  | final_pose_pub_ _ | tf_broadcaster_ _ => position_pair
  | fused_twist_pub_ _ => rate_pair
  end.

(** The fused samples (pose or twist) among what was sent; the derived
    transforms are counted apart. *)
Definition is_fused_sample (p : Pair) (e : Emission) : bool :=
  match p, e with
  | position_pair, final_pose_pub_ _ => true
  | rate_pair, fused_twist_pub_ _ => true
  | _, _ => false
  end.

Definition is_transform (e : Emission) : bool :=
  match e with tf_broadcaster_ _ => true | _ => false end.

Definition count (f : Emission -> bool) (out : list Emission) : nat :=
  length (filter (fun e => f e = true) out).

Definition arrivals_on (p : Pair) (arrivals : list (Time.t * Arrival))
    : nat :=
  length (filter (fun x => pair_of (role_of (snd x)) = p) arrivals).

(** The header stamp of whatever was sent. *)
Definition stamp_of (e : Emission) : Time.t :=
  match e with
  | final_pose_pub_ m => pose_stamp m
  | fused_twist_pub_ m => twist_stamp m
  | tf_broadcaster_ m => tf_stamp m
  end.

(** [fused] is the blend of the primary [A] and the secondary [B]. *)
Definition pose_blend (w1 w2 : float)
    (A B fused : PoseWithCovarianceStamped.t) : Prop :=
  Point.x (pose_position fused)
    = w1 * Point.x (pose_position A) + w2 * Point.x (pose_position B) /\
  Point.y (pose_position fused)
    = w1 * Point.y (pose_position A) + w2 * Point.y (pose_position B) /\
  Point.z (pose_position fused)
    = w1 * Point.z (pose_position A) + w2 * Point.z (pose_position B) /\
  pose_orientation fused = pose_orientation A /\
  forall i, (i < 36)%nat ->
    at36 (pose_covariance fused) i
    = w1 * at36 (pose_covariance A) i + w2 * at36 (pose_covariance B) i.

Definition twist_blend (w1 w2 : float)
    (A B fused : TwistWithCovarianceStamped.t) : Prop :=
  Vector3.z (twist_angular fused)
    = w1 * Vector3.z (twist_angular A) + w2 * Vector3.z (twist_angular B) /\
  forall i, (i < 36)%nat ->
    at36 (twist_covariance fused) i
    = w1 * at36 (twist_covariance A) i + w2 * at36 (twist_covariance B) i.

(** Classes of doubles ([std::isfinite], and the negative zero). *)
Definition finite (x : float) : bool :=
  match classify x with NaN | PInf | NInf => false | _ => true end.
Definition is_neg_zero (x : float) : bool :=
  match classify x with NZero => true | _ => false end.

(** [c] keeps [a] when the dropped operand [b] is finite and [a] is not
    the negative zero. *)
Definition keeps (a b c : float) : Prop :=
  finite b = true -> is_neg_zero a = false -> c = a.

(** ** Sample inputs *)

Definition sample_pose (stamp : Z) (x y z : float) (q : Quaternion.t)
    (c : float) : PoseWithCovarianceStamped.t :=
  PoseWithCovarianceStamped.mk (Header.mk (Time.mk stamp 0) "sensor")
    (PoseWithCovariance.mk (Pose.mk (Point.mk x y z) q) (replicate 36 c)).

Definition sample_twist (stamp : Z) (wz c : float)
    : TwistWithCovarianceStamped.t :=
  TwistWithCovarianceStamped.mk (Header.mk (Time.mk stamp 0) "sensor")
    (TwistWithCovariance.mk
       (Twist.mk (Vector3.mk 7 8 9) (Vector3.mk 4 5 wz)) (replicate 36 c)).

Definition pose_A : PoseWithCovarianceStamped.t :=
  sample_pose 3 1 0 0 (Quaternion.mk 0 0 0 1) 0.25.
Definition pose_B : PoseWithCovarianceStamped.t :=
  sample_pose 4 3 0 0 (Quaternion.mk 0 0 1 0) 0.75.
Definition twist_A : TwistWithCovarianceStamped.t := sample_twist 5 1 0.25.
Definition twist_B : TwistWithCovarianceStamped.t := sample_twist 6 3 0.75.

(** A node holding all four samples, with weights of choice. *)
Definition node_with (w1 w2 : float) : PoseFusionNode :=
  mkNode (Some pose_A) (Some pose_B) (Some twist_A) (Some twist_B)
    w1 w2 w1 w2.

Definition clock_9 : Time.t := Time.mk 9 0.

(** A gnss sample whose x is infinite, and a node that holds it next to
    [pose_A] with weights (1, 0). *)
Definition pose_B_inf : PoseWithCovarianceStamped.t :=
  sample_pose 4 infinity 0 0 (Quaternion.mk 0 0 1 0) 0.75.
Definition node_1_0_inf : PoseFusionNode :=
  mkNode (Some pose_A) (Some pose_B_inf) (Some twist_A) (Some twist_B)
    1 0 1 0.

(** A lidar sample whose x is the negative zero, in a node with weights
    (1, 0). *)
Definition pose_A_neg_zero : PoseWithCovarianceStamped.t :=
  sample_pose 3 neg_zero 0 0 (Quaternion.mk 0 0 0 1) 0.25.
Definition node_1_0_neg_zero : PoseFusionNode :=
  mkNode (Some pose_A_neg_zero) (Some pose_B) (Some twist_A) (Some twist_B)
    1 0 1 0.

(** ** Vocabulary of the statements about whole runs *)

(** The node after a run, as far as the member assignments go. *)
Definition stores (arrivals : list (Time.t * Arrival)) (n : PoseFusionNode)
    : PoseFusionNode :=
  foldl (fun acc x => store (snd x) acc) n arrivals.

(** The samples that arrived on each subscription, in order. *)
Definition lidar_samples (arrivals : list (Time.t * Arrival))
    : list PoseWithCovarianceStamped.t :=
  omap (fun x => match snd x with lidar_pose_sub_ m => Some m | _ => None end)
    arrivals.
Definition gnss_samples (arrivals : list (Time.t * Arrival))
    : list PoseWithCovarianceStamped.t :=
  omap (fun x => match snd x with gnss_pose_sub_ m => Some m | _ => None end)
    arrivals.
Definition ekf_twist_samples (arrivals : list (Time.t * Arrival))
    : list TwistWithCovarianceStamped.t :=
  omap (fun x => match snd x with ekf_twist_sub_ m => Some m | _ => None end)
    arrivals.
Definition filter_twist_samples (arrivals : list (Time.t * Arrival))
    : list TwistWithCovarianceStamped.t :=
  omap
    (fun x => match snd x with filter_twist_sub_ m => Some m | _ => None end)
    arrivals.

(** What a slot holds after samples arrived on it: the last of them, or
    what it held before when there were none. *)
Definition latest {A} (before : option A) (samples : list A) : option A :=
  match last samples with Some m => Some m | None => before end.

(** The arrivals on one pair, and the emissions of one pair. *)
Definition arrivals_of (p : Pair) (arrivals : list (Time.t * Arrival))
    : list (Time.t * Arrival) :=
  filter (fun x => pair_of (role_of (snd x)) = p) arrivals.
Definition emissions_of (p : Pair) (out : list Emission) : list Emission :=
  filter (fun e => emitted_by e = p) out.

(** The frame the header of an emission names. *)
Definition frame_of (e : Emission) : string :=
  match e with
  | final_pose_pub_ m => Header.frame_id (PoseWithCovarianceStamped.header m)
  | fused_twist_pub_ m =>
      Header.frame_id (TwistWithCovarianceStamped.header m)
  | tf_broadcaster_ m => Header.frame_id (TransformStamped.header m)
  end.

(** [tf] is the transform of the pose [p]. *)
Definition transform_of_pose (p : PoseWithCovarianceStamped.t)
    (tf : TransformStamped.t) : Prop :=
  tf_stamp tf = pose_stamp p /\
  Vector3.x (tf_translation tf) = Point.x (pose_position p) /\
  Vector3.y (tf_translation tf) = Point.y (pose_position p) /\
  Vector3.z (tf_translation tf) = Point.z (pose_position p) /\
  tf_rotation tf = pose_orientation p.

(** A log in which every fused pose is directly followed by its
    transform and no transform stands anywhere else. *)
Inductive pose_then_transform : list Emission -> Prop :=
  | ptt_nil : pose_then_transform []
  | ptt_twist m rest :
      pose_then_transform rest ->
      pose_then_transform (fused_twist_pub_ m :: rest)
  | ptt_pose p tf rest :
      transform_of_pose p tf ->
      pose_then_transform rest ->
      pose_then_transform (final_pose_pub_ p :: tf_broadcaster_ tf :: rest).

(** What a fusion sends, without the node it leaves. *)
Definition sent (r : option (unit * PoseFusionNode * list Emission))
    : option (list Emission) :=
  match r with Some (_, _, out) => Some out | None => None end.

(** Two nodes that hold the same samples of a pair and the same weights
    for it. *)
Definition same_pair_state (p : Pair) (n m : PoseFusionNode) : Prop :=
  match p with
  | position_pair =>
      last_lidar_msg_ n = last_lidar_msg_ m /\
      last_gnss_msg_ n = last_gnss_msg_ m /\
      lidar_weight_ n = lidar_weight_ m /\
      gnss_weight_ n = gnss_weight_ m
  | rate_pair =>
      last_ekf_twist_msg_ n = last_ekf_twist_msg_ m /\
      last_filter_twist_msg_ n = last_filter_twist_msg_ m /\
      ekf_twist_weight_ n = ekf_twist_weight_ m /\
      filter_twist_weight_ n = filter_twist_weight_ m
  end.

(** Samples with the payload of [pose_A], [pose_B], [twist_A] under
    other headers, another gnss orientation and other unused twist
    components. *)
Definition pose_A_other_header : PoseWithCovarianceStamped.t :=
  PoseWithCovarianceStamped.mk (Header.mk (Time.mk 77 5) "odom")
    (PoseWithCovarianceStamped.pose pose_A).
Definition pose_B_other_orientation : PoseWithCovarianceStamped.t :=
  sample_pose 8 3 0 0 (Quaternion.mk 1 0 0 0) 0.75.
Definition twist_A_other_linear : TwistWithCovarianceStamped.t :=
  TwistWithCovarianceStamped.mk (Header.mk (Time.mk 77 5) "odom")
    (TwistWithCovariance.mk
       (Twist.mk (Vector3.mk 1 2 3) (Vector3.mk 6 6 1)) (replicate 36 0.25)).

(** A lidar sample whose y is NaN. *)
Definition pose_A_nan : PoseWithCovarianceStamped.t :=
  sample_pose 3 1 nan 0 (Quaternion.mk 0 0 0 1) 0.25.

(** A run that starts before either pair is complete. *)
Definition sample_run : list (Time.t * Arrival) :=
  [(Time.mk 1 0, lidar_pose_sub_ pose_A);
   (Time.mk 2 0, ekf_twist_sub_ twist_A);
   (Time.mk 3 0, gnss_pose_sub_ pose_B);
   (Time.mk 4 0, filter_twist_sub_ twist_B);
   (Time.mk 5 0, lidar_pose_sub_ pose_B);
   (Time.mk 6 0, ekf_twist_sub_ twist_B)].

(** A 36-entry array read as a row-major 6x6 matrix is symmetric. *)
Definition symmetric36 (c : array36) : Prop :=
  forall i j, (i < 6)%nat -> (j < 6)%nat ->
    at36 c (6 * i + j) = at36 c (6 * j + i).

(** ** Loops over an array *)

Lemma for_range_S {S} (n : nat) (body : nat -> S -> S) (s : S) :
  for_range 0 (Datatypes.S n) body s = body n (for_range 0 n body s).
Proof.
  unfold for_range. rewrite !Nat.sub_0_r, seq_S, foldl_snoc. reflexivity.
Qed.

Lemma for_range_fill (g : nat -> float) (n : nat) (a : array36) :
  n <= length a ->
  length (for_range 0 n (fun i => set36 i (g i)) a) = length a /\
  forall i, i < n -> at36 (for_range 0 n (fun i => set36 i (g i)) a) i = g i.
Proof.
  induction n as [|n IH]; intros Hn.
  - split; [reflexivity | lia].
  - destruct IH as [Hlen Hget]; [lia|].
    rewrite for_range_S.
    set (a' := for_range 0 n _ a) in *. unfold set36. split.
    + rewrite length_insert. exact Hlen.
    + intros i Hi. unfold at36 in *.
      destruct (decide (i = n)) as [->|Hne].
      * rewrite list_lookup_insert_eq by lia. reflexivity.
      * rewrite list_lookup_insert_ne by congruence.
        apply Hget. lia.
Qed.

Lemma for_range_pose_covariance (f : nat -> array36 -> array36) (n : nat)
    (m : PoseWithCovarianceStamped.t) :
  for_range 0 n
    (fun i =>
       PoseWithCovarianceStamped.on_pose
         (PoseWithCovariance.on_covariance (f i))) m
  = PoseWithCovarianceStamped.mk (PoseWithCovarianceStamped.header m)
      (PoseWithCovariance.mk
         (PoseWithCovariance.pose (PoseWithCovarianceStamped.pose m))
         (for_range 0 n f (pose_covariance m))).
Proof.
  induction n as [|n IH].
  - destruct m as [h [p c]]. reflexivity.
  - rewrite !for_range_S, IH. reflexivity.
Qed.

Lemma for_range_twist_covariance (f : nat -> array36 -> array36) (n : nat)
    (m : TwistWithCovarianceStamped.t) :
  for_range 0 n
    (fun i =>
       TwistWithCovarianceStamped.on_twist
         (TwistWithCovariance.on_covariance (f i))) m
  = TwistWithCovarianceStamped.mk (TwistWithCovarianceStamped.header m)
      (TwistWithCovariance.mk
         (TwistWithCovariance.twist (TwistWithCovarianceStamped.twist m))
         (for_range 0 n f (twist_covariance m))).
Proof.
  induction n as [|n IH].
  - destruct m as [h [p c]]. reflexivity.
  - rewrite !for_range_S, IH. reflexivity.
Qed.

(** ** What one run of each member function does *)

Lemma broadcastTransform_run (fused_pose : PoseWithCovarianceStamped.t)
    (clk : Time.t) (n : PoseFusionNode) :
  exists tf,
    broadcastTransform fused_pose clk n = Some (tt, n, [tf_broadcaster_ tf]) /\
    tf_stamp tf = pose_stamp fused_pose /\
    tf_parent tf = "map"%string /\
    TransformStamped.child_frame_id tf = "base_link"%string /\
    Vector3.x (tf_translation tf) = Point.x (pose_position fused_pose) /\
    Vector3.y (tf_translation tf) = Point.y (pose_position fused_pose) /\
    Vector3.z (tf_translation tf) = Point.z (pose_position fused_pose) /\
    tf_rotation tf = pose_orientation fused_pose.
Proof.
  eexists. split; [reflexivity|].
  destruct fused_pose as [h [[p [qx qy qz qw]] c]].
  repeat split.
Qed.

Lemma fusePoses_run (clk : Time.t) (n : PoseFusionNode)
    (A B : PoseWithCovarianceStamped.t) :
  last_lidar_msg_ n = Some A ->
  last_gnss_msg_ n = Some B ->
  exists fused tf,
    fusePoses clk n
      = Some (tt, n, [final_pose_pub_ fused; tf_broadcaster_ tf]) /\
    broadcastTransform fused clk n = Some (tt, n, [tf_broadcaster_ tf]) /\
    PoseWithCovarianceStamped.header fused = Header.mk clk "map" /\
    pose_position fused
      = Point.mk
          (lidar_weight_ n * Point.x (pose_position A)
           + gnss_weight_ n * Point.x (pose_position B))
          (lidar_weight_ n * Point.y (pose_position A)
           + gnss_weight_ n * Point.y (pose_position B))
          (lidar_weight_ n * Point.z (pose_position A)
           + gnss_weight_ n * Point.z (pose_position B)) /\
    pose_orientation fused = pose_orientation A /\
    length (pose_covariance fused) = 36%nat /\
    forall i, (i < 36)%nat ->
      at36 (pose_covariance fused) i
      = lidar_weight_ n * at36 (pose_covariance A) i
        + gnss_weight_ n * at36 (pose_covariance B) i.
Proof.
  intros HA HB. eexists _, _. split.
  { unfold fusePoses, bind, this, deref, now, send, broadcastTransform.
    rewrite HA, HB. cbv beta iota zeta.
    rewrite for_range_pose_covariance. reflexivity. }
  split; [reflexivity|].
  repeat (split; [reflexivity|]).
  apply (for_range_fill
    (fun i => lidar_weight_ n * at36 (pose_covariance A) i
              + gnss_weight_ n * at36 (pose_covariance B) i)
    36 zeros36 (le_n 36)).
Qed.

Lemma fuseTwists_run (clk : Time.t) (n : PoseFusionNode)
    (A B : TwistWithCovarianceStamped.t) :
  last_ekf_twist_msg_ n = Some A ->
  last_filter_twist_msg_ n = Some B ->
  exists fused,
    fuseTwists clk n = Some (tt, n, [fused_twist_pub_ fused]) /\
    TwistWithCovarianceStamped.header fused = Header.mk clk "map" /\
    twist_linear fused = Vector3.mk 0 0 0 /\
    twist_angular fused
      = Vector3.mk 0 0
          (ekf_twist_weight_ n * Vector3.z (twist_angular A)
           + filter_twist_weight_ n * Vector3.z (twist_angular B)) /\
    length (twist_covariance fused) = 36%nat /\
    forall i, (i < 36)%nat ->
      at36 (twist_covariance fused) i
      = ekf_twist_weight_ n * at36 (twist_covariance A) i
        + filter_twist_weight_ n * at36 (twist_covariance B) i.
Proof.
  intros HA HB. eexists. split.
  { unfold fuseTwists, bind, this, deref, now, send.
    rewrite HA, HB. cbv beta iota zeta.
    rewrite for_range_twist_covariance. reflexivity. }
  repeat (split; [reflexivity|]).
  apply (for_range_fill
    (fun i => ekf_twist_weight_ n * at36 (twist_covariance A) i
              + filter_twist_weight_ n * at36 (twist_covariance B) i)
    36 zeros36 (le_n 36)).
Qed.

(** A callback stores the sample and, when the counterpart is cached,
    runs the fusion of its pair on the node it has just updated. *)
Lemma dispatch_run (a : Arrival) (clk : Time.t) (n : PoseFusionNode) :
  dispatch a clk n
  = if cached n (counterpart (role_of a))
    then fuse (pair_of (role_of a)) clk (store a n)
    else Some (tt, store a n, []).
Proof.
  destruct a as [m|m|m|m]; destruct n as [l g e f w1 w2 w3 w4];
    cbn [role_of counterpart pair_of cached store fuse dispatch
         last_lidar_msg_ last_gnss_msg_ last_ekf_twist_msg_
         last_filter_twist_msg_].
  - unfold lidarPoseCallback, bind, modify, this, set_last_lidar_msg_.
    cbn [last_gnss_msg_]. destruct g as [g|]; cbn [when_set].
    + rewrite bool_decide_eq_true_2 by eauto.
      destruct (fusePoses _ _) as [[[[] n'] out]|]; reflexivity.
    + rewrite bool_decide_eq_false_2 by (intros [? ?]; discriminate).
      reflexivity.
  - unfold gnssPoseCallback, bind, modify, this, set_last_gnss_msg_.
    cbn [last_lidar_msg_]. destruct l as [l|]; cbn [when_set].
    + rewrite bool_decide_eq_true_2 by eauto.
      destruct (fusePoses _ _) as [[[[] n'] out]|]; reflexivity.
    + rewrite bool_decide_eq_false_2 by (intros [? ?]; discriminate).
      reflexivity.
  - unfold ekfTwistCallback, bind, modify, this, set_last_ekf_twist_msg_.
    cbn [last_filter_twist_msg_]. destruct f as [f|]; cbn [when_set].
    + rewrite bool_decide_eq_true_2 by eauto.
      destruct (fuseTwists _ _) as [[[[] n'] out]|]; reflexivity.
    + rewrite bool_decide_eq_false_2 by (intros [? ?]; discriminate).
      reflexivity.
  - unfold filterTwistCallback, bind, modify, this,
      set_last_filter_twist_msg_.
    cbn [last_ekf_twist_msg_]. destruct e as [e|]; cbn [when_set].
    + rewrite bool_decide_eq_true_2 by eauto.
      destruct (fuseTwists _ _) as [[[[] n'] out]|]; reflexivity.
    + rewrite bool_decide_eq_false_2 by (intros [? ?]; discriminate).
      reflexivity.
Qed.

Lemma cached_store (a : Arrival) (n : PoseFusionNode) (r : Role) :
  cached (store a n) r
  = if decide (r = role_of a) then true else cached n r.
Proof.
  destruct a, r, n; cbn; try reflexivity;
    apply bool_decide_eq_true_2; eauto.
Qed.

Lemma cached_store_own (a : Arrival) (n : PoseFusionNode) :
  cached (store a n) (role_of a) = true.
Proof. rewrite cached_store, decide_True; reflexivity. Qed.

Lemma cached_store_other (a : Arrival) (n : PoseFusionNode) (r : Role) :
  cached n r = true -> cached (store a n) r = true.
Proof.
  intros H. rewrite cached_store.
  destruct (decide (r = role_of a)); [reflexivity | exact H].
Qed.

Lemma cached_slot (n : PoseFusionNode) (r : Role) :
  cached n r = true ->
  match r with
  | lidar => exists m, last_lidar_msg_ n = Some m
  | gnss => exists m, last_gnss_msg_ n = Some m
  | ekf_twist => exists m, last_ekf_twist_msg_ n = Some m
  | filter_twist => exists m, last_filter_twist_msg_ n = Some m
  end.
Proof.
  destruct r; cbn; intros H; apply bool_decide_eq_true_1 in H;
    destruct H as [m H]; eauto.
Qed.

(** With both roles of a pair cached, the pair's routine leaves the node
    as it is and sends its fused sample once (the position pair also its
    transform, once), and nothing of the other pair. *)
Lemma fuse_run (r : Role) (clk : Time.t) (n : PoseFusionNode) :
  cached n r = true ->
  cached n (counterpart r) = true ->
  exists out,
    fuse (pair_of r) clk n = Some (tt, n, out) /\
    count (is_fused_sample (pair_of r)) out = 1%nat /\
    count is_transform out
      = (if decide (pair_of r = position_pair) then 1 else 0)%nat /\
    Forall (fun e => emitted_by e = pair_of r) out.
Proof.
  intros H1 H2.
  apply cached_slot in H1. apply cached_slot in H2.
  destruct r; cbn [counterpart pair_of fuse] in *;
    destruct H1 as [m1 H1]; destruct H2 as [m2 H2].
  - destruct (fusePoses_run clk n _ _ H1 H2) as (p & tf & -> & _).
    eexists. split; [reflexivity|]. repeat split; repeat constructor.
  - destruct (fusePoses_run clk n _ _ H2 H1) as (p & tf & -> & _).
    eexists. split; [reflexivity|]. repeat split; repeat constructor.
  - destruct (fuseTwists_run clk n _ _ H1 H2) as (p & -> & _).
    eexists. split; [reflexivity|]. repeat split; repeat constructor.
  - destruct (fuseTwists_run clk n _ _ H2 H1) as (p & -> & _).
    eexists. split; [reflexivity|]. repeat split; repeat constructor.
Qed.

(** ** The fused pose *)

(** C1. With both position samples cached, [fusePoses] publishes a pose
    whose position is, in each of x, y and z, the lidar weight times the
    lidar sample's coordinate plus the gnss weight times the gnss
    sample's coordinate; for positions (1,0,0) and (3,0,0) and weights
    (0.5, 0.5) it is (2,0,0). *)
Theorem fusePoses_position_weighted_sum (clk : Time.t) (n : PoseFusionNode)
    (A B : PoseWithCovarianceStamped.t) :
  last_lidar_msg_ n = Some A ->
  last_gnss_msg_ n = Some B ->
  exists fused tf,
    fusePoses clk n
      = Some (tt, n, [final_pose_pub_ fused; tf_broadcaster_ tf]) /\
    Point.x (pose_position fused)
      = lidar_weight_ n * Point.x (pose_position A)
        + gnss_weight_ n * Point.x (pose_position B) /\
    Point.y (pose_position fused)
      = lidar_weight_ n * Point.y (pose_position A)
        + gnss_weight_ n * Point.y (pose_position B) /\
    Point.z (pose_position fused)
      = lidar_weight_ n * Point.z (pose_position A)
        + gnss_weight_ n * Point.z (pose_position B) /\
    (lidar_weight_ n = 0.5 -> gnss_weight_ n = 0.5 ->
     pose_position A = Point.mk 1 0 0 ->
     pose_position B = Point.mk 3 0 0 ->
     pose_position fused = Point.mk 2 0 0).
Proof.
  intros HA HB.
  destruct (fusePoses_run clk n A B HA HB)
    as (fused & tf & Hrun & _ & _ & Hpos & _).
  exists fused, tf. split; [exact Hrun|].
  rewrite Hpos. cbn [Point.x Point.y Point.z].
  repeat (split; [reflexivity|]).
  intros -> -> -> ->. reflexivity.
Qed.

Lemma fusePoses_position_weighted_sum_witness :
  exists fused tf,
    fusePoses clock_9 (node_with 0.5 0.5)
      = Some (tt, node_with 0.5 0.5,
              [final_pose_pub_ fused; tf_broadcaster_ tf]) /\
    pose_position fused = Point.mk 2 0 0.
Proof.
  destruct (fusePoses_position_weighted_sum clock_9 (node_with 0.5 0.5)
              pose_A pose_B eq_refl eq_refl)
    as (fused & tf & Hrun & _ & _ & _ & Hex).
  exists fused, tf. split; [exact Hrun|].
  apply Hex; reflexivity.
Defined.

(** C2. Each of the 36 covariance entries of the fused pose is the lidar
    weight times the lidar sample's entry plus the gnss weight times the
    gnss sample's entry at the same index, and each of the 36 entries of
    the fused twist is the same blend of the ekf and filter samples'
    entries with the twist weights. *)
Theorem fused_covariance_entrywise_blend (clk : Time.t)
    (n : PoseFusionNode) (i : nat) :
  (i < 36)%nat ->
  (forall A B,
     last_lidar_msg_ n = Some A ->
     last_gnss_msg_ n = Some B ->
     exists fused tf,
       fusePoses clk n
         = Some (tt, n, [final_pose_pub_ fused; tf_broadcaster_ tf]) /\
       length (pose_covariance fused) = 36%nat /\
       at36 (pose_covariance fused) i
       = lidar_weight_ n * at36 (pose_covariance A) i
         + gnss_weight_ n * at36 (pose_covariance B) i) /\
  (forall A B,
     last_ekf_twist_msg_ n = Some A ->
     last_filter_twist_msg_ n = Some B ->
     exists fused,
       fuseTwists clk n = Some (tt, n, [fused_twist_pub_ fused]) /\
       length (twist_covariance fused) = 36%nat /\
       at36 (twist_covariance fused) i
       = ekf_twist_weight_ n * at36 (twist_covariance A) i
         + filter_twist_weight_ n * at36 (twist_covariance B) i).
Proof.
  intros Hi. split; intros A B HA HB.
  - destruct (fusePoses_run clk n A B HA HB)
      as (fused & tf & Hrun & _ & _ & _ & _ & Hlen & Hcov).
    exists fused, tf. auto.
  - destruct (fuseTwists_run clk n A B HA HB)
      as (fused & Hrun & _ & _ & _ & Hlen & Hcov).
    exists fused. auto.
Qed.

Lemma fused_covariance_entrywise_blend_witness :
  (exists fused tf,
     fusePoses clock_9 (node_with 0.5 0.5)
       = Some (tt, node_with 0.5 0.5,
               [final_pose_pub_ fused; tf_broadcaster_ tf]) /\
     at36 (pose_covariance fused) 35 = 0.5) /\
  (exists fused,
     fuseTwists clock_9 (node_with 0.5 0.5)
       = Some (tt, node_with 0.5 0.5, [fused_twist_pub_ fused]) /\
     at36 (twist_covariance fused) 35 = 0.5).
Proof.
  destruct (fused_covariance_entrywise_blend clock_9 (node_with 0.5 0.5) 35
              ltac:(lia)) as [Hp Ht].
  split.
  - destruct (Hp pose_A pose_B eq_refl eq_refl)
      as (fused & tf & Hrun & _ & Hcov).
    exists fused, tf. split; [exact Hrun|]. rewrite Hcov. reflexivity.
  - destruct (Ht twist_A twist_B eq_refl eq_refl)
      as (fused & Hrun & _ & Hcov).
    exists fused. split; [exact Hrun|]. rewrite Hcov. reflexivity.
Defined.

(** C3. The fused pose's orientation is the lidar sample's orientation,
    whatever the weights and whatever the gnss sample's orientation. *)
Theorem fusePoses_orientation_is_lidar (clk : Time.t) (n : PoseFusionNode)
    (A B : PoseWithCovarianceStamped.t) :
  last_lidar_msg_ n = Some A ->
  last_gnss_msg_ n = Some B ->
  exists fused tf,
    fusePoses clk n
      = Some (tt, n, [final_pose_pub_ fused; tf_broadcaster_ tf]) /\
    pose_orientation fused = pose_orientation A.
Proof.
  intros HA HB.
  destruct (fusePoses_run clk n A B HA HB)
    as (fused & tf & Hrun & _ & _ & _ & Hq & _).
  exists fused, tf. auto.
Qed.

Lemma fusePoses_orientation_is_lidar_witness :
  exists fused tf,
    fusePoses clock_9 (node_with 0.25 0.75)
      = Some (tt, node_with 0.25 0.75,
              [final_pose_pub_ fused; tf_broadcaster_ tf]) /\
    pose_orientation fused = Quaternion.mk 0 0 0 1.
Proof.
  destruct (fusePoses_orientation_is_lidar clock_9 (node_with 0.25 0.75)
              pose_A pose_B eq_refl eq_refl) as (fused & tf & Hrun & Hq).
  exists fused, tf. split; [exact Hrun|]. rewrite Hq. reflexivity.
Defined.

(** ** The derived transform *)

(** C6. [broadcastTransform] sends, for any pose handed to it, one
    transform whose translation is the pose's position component by
    component, whose rotation is the pose's orientation, and whose frames
    are "map" and "base_link"; the transform [fusePoses] sends is the one
    derived from the pose it has just published. *)
Theorem broadcastTransform_projects_fused_pose :
  (forall fused_pose clk n,
     exists tf,
       broadcastTransform fused_pose clk n
         = Some (tt, n, [tf_broadcaster_ tf]) /\
       Vector3.x (tf_translation tf) = Point.x (pose_position fused_pose) /\
       Vector3.y (tf_translation tf) = Point.y (pose_position fused_pose) /\
       Vector3.z (tf_translation tf) = Point.z (pose_position fused_pose) /\
       tf_rotation tf = pose_orientation fused_pose /\
       tf_parent tf = "map"%string /\
       TransformStamped.child_frame_id tf = "base_link"%string) /\
  (forall clk n A B,
     last_lidar_msg_ n = Some A ->
     last_gnss_msg_ n = Some B ->
     exists fused tf,
       fusePoses clk n
         = Some (tt, n, [final_pose_pub_ fused; tf_broadcaster_ tf]) /\
       Vector3.x (tf_translation tf) = Point.x (pose_position fused) /\
       Vector3.y (tf_translation tf) = Point.y (pose_position fused) /\
       Vector3.z (tf_translation tf) = Point.z (pose_position fused) /\
       tf_rotation tf = pose_orientation fused /\
       tf_parent tf = "map"%string /\
       TransformStamped.child_frame_id tf = "base_link"%string).
Proof.
  split.
  - intros fused_pose clk n.
    destruct (broadcastTransform_run fused_pose clk n)
      as (tf & Hrun & _ & Hp & Hc & Hx & Hy & Hz & Hq).
    exists tf. auto 10.
  - intros clk n A B HA HB.
    destruct (fusePoses_run clk n A B HA HB)
      as (fused & tf & Hrun & Htf & _).
    destruct (broadcastTransform_run fused clk n)
      as (tf' & Hrun' & _ & Hp & Hc & Hx & Hy & Hz & Hq).
    assert (tf' = tf) as -> by congruence.
    exists fused, tf. auto 10.
Qed.

Lemma broadcastTransform_projects_fused_pose_witness :
  exists fused tf,
    fusePoses clock_9 (node_with 0.5 0.5)
      = Some (tt, node_with 0.5 0.5,
              [final_pose_pub_ fused; tf_broadcaster_ tf]) /\
    Vector3.x (tf_translation tf) = 2 /\
    tf_rotation tf = Quaternion.mk 0 0 0 1.
Proof.
  destruct broadcastTransform_projects_fused_pose as [_ H].
  destruct (H clock_9 (node_with 0.5 0.5) pose_A pose_B eq_refl eq_refl)
    as (fused & tf & Hrun & Hx & _ & _ & Hq & _).
  exists fused, tf. split; [exact Hrun|].
  rewrite Hx, Hq.
  injection Hrun as <- _. split; reflexivity.
Defined.

(** ** Callbacks and the executor *)

(** A callback never faults: it stores its sample and, depending on
    whether the counterpart is cached, sends nothing or what the fusion
    of its pair sends on the updated node. *)
Lemma dispatch_total (a : Arrival) (clk : Time.t) (n : PoseFusionNode) :
  exists out,
    dispatch a clk n = Some (tt, store a n, out) /\
    (cached n (counterpart (role_of a)) = false -> out = []) /\
    (cached n (counterpart (role_of a)) = true ->
     fuse (pair_of (role_of a)) clk (store a n)
       = Some (tt, store a n, out) /\
     count (is_fused_sample (pair_of (role_of a))) out = 1%nat /\
     count is_transform out
       = (if decide (pair_of (role_of a) = position_pair) then 1 else 0)%nat)
    /\
    Forall (fun e => emitted_by e = pair_of (role_of a)) out.
Proof.
  rewrite dispatch_run.
  destruct (cached n (counterpart (role_of a))) eqn:Hc.
  - destruct (fuse_run (role_of a) clk (store a n))
      as (out & Hrun & Hcount & Htf & Hall).
    + apply cached_store_own.
    + apply cached_store_other, Hc.
    + exists out. repeat split; auto. discriminate.
  - exists []. repeat split; auto; discriminate.
Qed.

Lemma spin_cons (clk : Time.t) (a : Arrival)
    (rest : list (Time.t * Arrival)) (n : PoseFusionNode)
    (out1 : list Emission) :
  dispatch a clk n = Some (tt, store a n, out1) ->
  spin ((clk, a) :: rest) n
  = match spin rest (store a n) with
    | None => None
    | Some (n2, out2) => Some (n2, out1 ++ out2)
    end.
Proof. intros H. cbn [spin]. rewrite H. reflexivity. Qed.

Lemma count_app (f : Emission -> bool) (l k : list Emission) :
  count f (l ++ k) = (count f l + count f k)%nat.
Proof. unfold count. rewrite filter_app, length_app. reflexivity. Qed.

Lemma count_other_pair (p q : Pair) (out : list Emission) :
  Forall (fun e => emitted_by e = q) out ->
  p <> q ->
  count (is_fused_sample p) out = 0%nat.
Proof.
  intros Hall Hpq. induction Hall as [|e out He _ IH]; [reflexivity|].
  unfold count in *. rewrite filter_cons.
  destruct (decide _) as [Hf|_]; [|exact IH].
  exfalso. apply Hpq. rewrite <- He.
  destruct p, e; cbn in Hf |- *; congruence.
Qed.

(** No delivery faults. *)
Lemma spin_total (arrivals : list (Time.t * Arrival)) (n : PoseFusionNode) :
  exists n' out, spin arrivals n = Some (n', out).
Proof.
  revert n. induction arrivals as [|[clk a] rest IH]; intros n.
  - exists n, []. reflexivity.
  - destruct (dispatch_total a clk n) as (out1 & Hrun & _).
    destruct (IH (store a n)) as (n' & out2 & Hspin).
    exists n', (out1 ++ out2).
    rewrite (spin_cons _ _ _ _ _ Hrun), Hspin. reflexivity.
Qed.

Lemma latest_cons {A} (before : option A) (m : A) (samples : list A) :
  latest before (m :: samples) = latest (Some m) samples.
Proof.
  unfold latest. rewrite last_cons. destruct (last samples); reflexivity.
Qed.

(** What the node holds after a delivery. *)
Lemma spin_slots (arrivals : list (Time.t * Arrival))
    (n n' : PoseFusionNode) (out : list Emission) :
  spin arrivals n = Some (n', out) ->
  last_lidar_msg_ n'
    = latest (last_lidar_msg_ n) (lidar_samples arrivals) /\
  last_gnss_msg_ n'
    = latest (last_gnss_msg_ n) (gnss_samples arrivals) /\
  last_ekf_twist_msg_ n'
    = latest (last_ekf_twist_msg_ n) (ekf_twist_samples arrivals) /\
  last_filter_twist_msg_ n'
    = latest (last_filter_twist_msg_ n) (filter_twist_samples arrivals) /\
  lidar_weight_ n' = lidar_weight_ n /\
  gnss_weight_ n' = gnss_weight_ n /\
  ekf_twist_weight_ n' = ekf_twist_weight_ n /\
  filter_twist_weight_ n' = filter_twist_weight_ n.
Proof.
  revert n out. induction arrivals as [|[clk a] rest IH]; intros n out H.
  - injection H as <- _. repeat split.
  - destruct (dispatch_total a clk n) as (out1 & Hrun & _).
    rewrite (spin_cons _ _ _ _ _ Hrun) in H.
    destruct (spin rest (store a n)) as [[n2 out2]|] eqn:Hrest;
      [|discriminate H].
    injection H as <- _.
    destruct (IH _ _ Hrest) as (Hl & Hg & He & Hf & W1 & W2 & W3 & W4).
    rewrite Hl, Hg, He, Hf, W1, W2, W3, W4.
    unfold lidar_samples, gnss_samples, ekf_twist_samples,
      filter_twist_samples.
    destruct a as [m|m|m|m]; cbn [omap list_omap snd store];
      rewrite ?latest_cons; repeat split.
Qed.

(** A delivery in two parts. *)
Lemma spin_concat (l k : list (Time.t * Arrival)) (n : PoseFusionNode) :
  exists n1 out_l n2 out_k,
    spin l n = Some (n1, out_l) /\
    spin k n1 = Some (n2, out_k) /\
    spin (l ++ k) n = Some (n2, out_l ++ out_k).
Proof.
  revert n. induction l as [|[clk a] rest IH]; intros n.
  - destruct (spin_total k n) as (n2 & out_k & Hk).
    exists n, [], n2, out_k. auto.
  - destruct (dispatch_total a clk n) as (out1 & Hrun & _).
    destruct (IH (store a n)) as (n1 & out_l & n2 & out_k & Hl & Hk & Hlk).
    exists n1, (out1 ++ out_l), n2, out_k. split; [|split].
    + rewrite (spin_cons _ _ _ _ _ Hrun), Hl. reflexivity.
    + exact Hk.
    + change (((clk, a) :: rest) ++ k) with ((clk, a) :: (rest ++ k)).
      rewrite (spin_cons _ _ _ _ _ Hrun), Hlk, app_assoc. reflexivity.
Qed.

(** ** The fused twist *)

(** C8. With both rate samples cached, [fuseTwists] publishes a twist
    whose angular z is the ekf weight times the ekf sample's angular z
    plus the filter weight times the filter sample's angular z, and whose
    linear x, y, z and angular x, y are the double 0.0; and every fused
    twist a callback sends is of that shape, blended from the two rate
    samples the node holds once the callback has stored its own. *)
Theorem fuseTwists_only_angular_z :
  (forall clk n A B,
     last_ekf_twist_msg_ n = Some A ->
     last_filter_twist_msg_ n = Some B ->
     exists fused,
       fuseTwists clk n = Some (tt, n, [fused_twist_pub_ fused]) /\
       Vector3.z (twist_angular fused)
         = ekf_twist_weight_ n * Vector3.z (twist_angular A)
           + filter_twist_weight_ n * Vector3.z (twist_angular B) /\
       Vector3.x (twist_linear fused) = 0 /\
       Vector3.y (twist_linear fused) = 0 /\
       Vector3.z (twist_linear fused) = 0 /\
       Vector3.x (twist_angular fused) = 0 /\
       Vector3.y (twist_angular fused) = 0) /\
  (forall a clk n,
     exists out,
       dispatch a clk n = Some (tt, store a n, out) /\
       Forall
         (fun e => forall fused, e = fused_twist_pub_ fused ->
            (exists A B,
               last_ekf_twist_msg_ (store a n) = Some A /\
               last_filter_twist_msg_ (store a n) = Some B /\
               Vector3.z (twist_angular fused)
               = ekf_twist_weight_ n * Vector3.z (twist_angular A)
                 + filter_twist_weight_ n * Vector3.z (twist_angular B)) /\
            twist_linear fused = Vector3.mk 0 0 0 /\
            Vector3.x (twist_angular fused) = 0 /\
            Vector3.y (twist_angular fused) = 0)
         out).
Proof.
  split.
  - intros clk n A B HA HB.
    destruct (fuseTwists_run clk n A B HA HB)
      as (fused & Hrun & _ & Hlin & Hang & _).
    exists fused. rewrite Hlin, Hang. auto 10.
  - intros a clk n.
    destruct (dispatch_total a clk n) as (out & Hrun & Hnone & Hsome & Hby).
    exists out. split; [exact Hrun|].
    destruct (cached n (counterpart (role_of a))) eqn:Hc;
      [|rewrite (Hnone eq_refl); constructor].
    destruct (pair_of (role_of a)) eqn:Hp.
    + eapply Forall_impl; [exact Hby|]. cbn. intros e He fused ->.
      discriminate He.
    + destruct (Hsome eq_refl) as (Hfuse & _). cbn [fuse] in Hfuse.
      pose proof (cached_store_own a n) as Hown.
      pose proof (cached_store_other a n _ Hc) as Hother.
      apply cached_slot in Hown. apply cached_slot in Hother.
      assert (exists A B,
                last_ekf_twist_msg_ (store a n) = Some A /\
                last_filter_twist_msg_ (store a n) = Some B)
        as (A & B & HA & HB).
      { destruct (role_of a); try discriminate Hp;
          cbn [counterpart] in Hother;
          destruct Hown as [m1 H1]; destruct Hother as [m2 H2]; eauto. }
      destruct (fuseTwists_run clk _ A B HA HB)
        as (fused & Hr & _ & Hlin & Hang & _).
      rewrite Hr in Hfuse. injection Hfuse as <-.
      constructor; [|constructor].
      intros fused' [= <-]. rewrite Hang, Hlin. cbn [Vector3.x Vector3.y].
      split; [|auto].
      exists A, B. repeat split; try assumption.
      destruct a; reflexivity.
Qed.

Lemma fuseTwists_only_angular_z_witness :
  exists fused,
    fuseTwists clock_9 (node_with 0.5 0.5)
      = Some (tt, node_with 0.5 0.5, [fused_twist_pub_ fused]) /\
    twist_angular fused = Vector3.mk 0 0 2 /\
    twist_linear fused = Vector3.mk 0 0 0.
Proof.
  destruct fuseTwists_only_angular_z as [H _].
  destruct (H clock_9 (node_with 0.5 0.5) twist_A twist_B eq_refl eq_refl)
    as (fused & Hrun & Hz & Hlx & Hly & Hlz & Hax & Hay).
  exists fused. split; [exact Hrun|].
  destruct fused as [h [[[lx ly lz] [ax ay az]] c]].
  cbn in Hz, Hlx, Hly, Hlz, Hax, Hay. subst. split; reflexivity.
Defined.

(** ** Stamps *)

(** C9. Whatever a callback sends carries the clock reading at which the
    callback ran as its header stamp: the fused pose, the fused twist and
    the transform alike, whatever the stamps of the cached samples; and
    [broadcastTransform] takes its stamp from the pose it is given. *)
Theorem emissions_stamped_with_clock :
  (forall a clk n,
     exists out,
       dispatch a clk n = Some (tt, store a n, out) /\
       Forall (fun e => stamp_of e = clk) out) /\
  (forall clk n A B,
     last_lidar_msg_ n = Some A ->
     last_gnss_msg_ n = Some B ->
     exists fused tf,
       fusePoses clk n
         = Some (tt, n, [final_pose_pub_ fused; tf_broadcaster_ tf]) /\
       pose_stamp fused = clk /\ tf_stamp tf = pose_stamp fused) /\
  (forall clk n A B,
     last_ekf_twist_msg_ n = Some A ->
     last_filter_twist_msg_ n = Some B ->
     exists fused,
       fuseTwists clk n = Some (tt, n, [fused_twist_pub_ fused]) /\
       twist_stamp fused = clk) /\
  (forall fused_pose clk n,
     exists tf,
       broadcastTransform fused_pose clk n
         = Some (tt, n, [tf_broadcaster_ tf]) /\
       tf_stamp tf = pose_stamp fused_pose).
Proof.
  assert (Hposes : forall clk n A B,
     last_lidar_msg_ n = Some A ->
     last_gnss_msg_ n = Some B ->
     exists fused tf,
       fusePoses clk n
         = Some (tt, n, [final_pose_pub_ fused; tf_broadcaster_ tf]) /\
       pose_stamp fused = clk /\ tf_stamp tf = pose_stamp fused).
  { intros clk n A B HA HB.
    destruct (fusePoses_run clk n A B HA HB)
      as (fused & tf & Hrun & Htf & Hh & _).
    destruct (broadcastTransform_run fused clk n) as (tf' & Hrun' & Hs & _).
    assert (tf' = tf) as -> by congruence.
    exists fused, tf. unfold pose_stamp in *. rewrite Hh in *. auto. }
  assert (Htwists : forall clk n A B,
     last_ekf_twist_msg_ n = Some A ->
     last_filter_twist_msg_ n = Some B ->
     exists fused,
       fuseTwists clk n = Some (tt, n, [fused_twist_pub_ fused]) /\
       twist_stamp fused = clk).
  { intros clk n A B HA HB.
    destruct (fuseTwists_run clk n A B HA HB) as (fused & Hrun & Hh & _).
    exists fused. unfold twist_stamp. rewrite Hh. auto. }
  repeat split; [|exact Hposes|exact Htwists|].
  - intros a clk n.
    destruct (dispatch_total a clk n) as (out & Hrun & Hnone & Hsome & _).
    exists out. split; [exact Hrun|].
    destruct (cached n (counterpart (role_of a))) eqn:Hc.
    + destruct (Hsome eq_refl) as (Hfuse & _).
      pose proof (cached_store_own a n) as Hown.
      pose proof (cached_store_other a n _ Hc) as Hother.
      apply cached_slot in Hown. apply cached_slot in Hother.
      destruct (role_of a); cbn [counterpart pair_of fuse] in *;
        destruct Hown as [m1 H1]; destruct Hother as [m2 H2].
      * destruct (Hposes clk _ _ _ H1 H2) as (p & tf & Hr & Hp & Ht).
        rewrite Hr in Hfuse. injection Hfuse as <-.
        repeat constructor; cbn; congruence.
      * destruct (Hposes clk _ _ _ H2 H1) as (p & tf & Hr & Hp & Ht).
        rewrite Hr in Hfuse. injection Hfuse as <-.
        repeat constructor; cbn; congruence.
      * destruct (Htwists clk _ _ _ H1 H2) as (p & Hr & Hp).
        rewrite Hr in Hfuse. injection Hfuse as <-.
        repeat constructor; cbn; congruence.
      * destruct (Htwists clk _ _ _ H2 H1) as (p & Hr & Hp).
        rewrite Hr in Hfuse. injection Hfuse as <-.
        repeat constructor; cbn; congruence.
    + rewrite (Hnone eq_refl). constructor.
  - intros fused_pose clk n.
    destruct (broadcastTransform_run fused_pose clk n)
      as (tf & Hrun & Hs & _).
    exists tf. auto.
Qed.

Lemma emissions_stamped_with_clock_witness :
  (exists fused tf,
     fusePoses clock_9 (node_with 0.5 0.5)
       = Some (tt, node_with 0.5 0.5,
               [final_pose_pub_ fused; tf_broadcaster_ tf]) /\
     pose_stamp fused = Time.mk 9 0 /\ tf_stamp tf = Time.mk 9 0 /\
     pose_stamp pose_A = Time.mk 3 0 /\ pose_stamp pose_B = Time.mk 4 0) /\
  (exists fused,
     fuseTwists clock_9 (node_with 0.5 0.5)
       = Some (tt, node_with 0.5 0.5, [fused_twist_pub_ fused]) /\
     twist_stamp fused = Time.mk 9 0 /\
     twist_stamp twist_A = Time.mk 5 0 /\ twist_stamp twist_B = Time.mk 6 0).
Proof.
  destruct emissions_stamped_with_clock as (_ & Hp & Ht & _).
  split.
  - destruct (Hp clock_9 (node_with 0.5 0.5) pose_A pose_B eq_refl eq_refl)
      as (fused & tf & Hrun & Hs & Hs').
    exists fused, tf. rewrite Hs', Hs. auto.
  - destruct (Ht clock_9 (node_with 0.5 0.5) twist_A twist_B
                eq_refl eq_refl) as (fused & Hrun & Hs).
    exists fused. rewrite Hs. auto.
Defined.

(** C4. As long as one role of a pair has never received a sample, that
    pair sends nothing: from a node that holds no sample of the
    counterpart of [r], any sequence of arrivals none of which is on that
    counterpart is processed without fault and sends neither a fused
    sample nor a transform of [r]'s pair. *)
Theorem no_output_before_counterpart (r : Role)
    (arrivals : list (Time.t * Arrival)) (n : PoseFusionNode) :
  cached n (counterpart r) = false ->
  Forall (fun x => role_of (snd x) <> counterpart r) arrivals ->
  exists n' out,
    spin arrivals n = Some (n', out) /\
    Forall (fun e => emitted_by e <> pair_of r) out.
Proof.
  revert n. induction arrivals as [|[clk a] rest IH]; intros n Hc Hall.
  - exists n, []. split; [reflexivity | constructor].
  - apply Forall_cons in Hall as [Ha Hrest]. cbn [snd] in Ha.
    destruct (dispatch_total a clk n) as (out1 & Hrun & Hnone & _ & Hby).
    destruct (IH (store a n)) as (n' & out2 & Hspin & Hout2).
    { rewrite cached_store, decide_False by congruence. exact Hc. }
    { exact Hrest. }
    exists n', (out1 ++ out2). split.
    { rewrite (spin_cons _ _ _ _ _ Hrun), Hspin. reflexivity. }
    apply Forall_app. split; [|exact Hout2].
    destruct (decide (role_of a = r)) as [Hr|Hr].
    + rewrite Hnone by (rewrite Hr; exact Hc). constructor.
    + eapply Forall_impl; [exact Hby|]. cbn. intros e ->.
      destruct (role_of a), r; cbn in *; congruence.
Qed.

Lemma no_output_before_counterpart_witness :
  exists n' out,
    spin [(Time.mk 1 0, lidar_pose_sub_ pose_A);
          (Time.mk 2 0, ekf_twist_sub_ twist_A);
          (Time.mk 3 0, lidar_pose_sub_ pose_B);
          (Time.mk 4 0, filter_twist_sub_ twist_B);
          (Time.mk 5 0, lidar_pose_sub_ pose_A)] PoseFusionNode_new
      = Some (n', out) /\
    Forall (fun e => emitted_by e <> position_pair) out.
Proof.
  apply (no_output_before_counterpart lidar _ PoseFusionNode_new).
  - reflexivity.
  - repeat constructor; discriminate.
Defined.

(** C5. An arrival on a role whose counterpart is cached makes the
    callback store the new sample and run the fusion of the pair once:
    what is sent is exactly one fused sample (for the position pair
    followed by its transform), blended from the new sample and the
    cached sample of the other role, with no condition on either stamp.
    Over a sequence of arrivals delivered to a node that holds both roles
    of a pair, the number of fused samples of the pair that are sent is
    the number of arrivals on the pair. And at any place of a run, an
    arrival whose counterpart has a sample by then (cached at the start
    or arrived earlier in the run) sends, right after what the earlier
    arrivals sent, the fused sample blended from the new sample and the
    latest sample of the counterpart: the last one that arrived before
    it, or the one cached at the start when none did. *)
Theorem ready_pair_fuses_on_every_arrival :
  (forall m g clk n,
     last_gnss_msg_ n = Some g ->
     exists fused tf,
       dispatch (lidar_pose_sub_ m) clk n
         = Some (tt, set_last_lidar_msg_ (Some m) n,
                 [final_pose_pub_ fused; tf_broadcaster_ tf]) /\
       pose_blend (lidar_weight_ n) (gnss_weight_ n) m g fused) /\
  (forall m l clk n,
     last_lidar_msg_ n = Some l ->
     exists fused tf,
       dispatch (gnss_pose_sub_ m) clk n
         = Some (tt, set_last_gnss_msg_ (Some m) n,
                 [final_pose_pub_ fused; tf_broadcaster_ tf]) /\
       pose_blend (lidar_weight_ n) (gnss_weight_ n) l m fused) /\
  (forall m f clk n,
     last_filter_twist_msg_ n = Some f ->
     exists fused,
       dispatch (ekf_twist_sub_ m) clk n
         = Some (tt, set_last_ekf_twist_msg_ (Some m) n,
                 [fused_twist_pub_ fused]) /\
       twist_blend (ekf_twist_weight_ n) (filter_twist_weight_ n)
         m f fused) /\
  (forall m e clk n,
     last_ekf_twist_msg_ n = Some e ->
     exists fused,
       dispatch (filter_twist_sub_ m) clk n
         = Some (tt, set_last_filter_twist_msg_ (Some m) n,
                 [fused_twist_pub_ fused]) /\
       twist_blend (ekf_twist_weight_ n) (filter_twist_weight_ n)
         e m fused) /\
  (forall p arrivals n,
     (forall r, pair_of r = p -> cached n r = true) ->
     exists n' out,
       spin arrivals n = Some (n', out) /\
       count (is_fused_sample p) out = arrivals_on p arrivals) /\
  (forall pre m clk post n g,
     latest (last_gnss_msg_ n) (gnss_samples pre) = Some g ->
     exists n1 out_pre fused tf n' out_post,
       spin pre n = Some (n1, out_pre) /\
       spin post (set_last_lidar_msg_ (Some m) n1) = Some (n', out_post) /\
       spin (pre ++ (clk, lidar_pose_sub_ m) :: post) n
         = Some (n', out_pre
                     ++ final_pose_pub_ fused :: tf_broadcaster_ tf
                        :: out_post) /\
       pose_blend (lidar_weight_ n) (gnss_weight_ n) m g fused) /\
  (forall pre m clk post n l,
     latest (last_lidar_msg_ n) (lidar_samples pre) = Some l ->
     exists n1 out_pre fused tf n' out_post,
       spin pre n = Some (n1, out_pre) /\
       spin post (set_last_gnss_msg_ (Some m) n1) = Some (n', out_post) /\
       spin (pre ++ (clk, gnss_pose_sub_ m) :: post) n
         = Some (n', out_pre
                     ++ final_pose_pub_ fused :: tf_broadcaster_ tf
                        :: out_post) /\
       pose_blend (lidar_weight_ n) (gnss_weight_ n) l m fused) /\
  (forall pre m clk post n f,
     latest (last_filter_twist_msg_ n) (filter_twist_samples pre) = Some f ->
     exists n1 out_pre fused n' out_post,
       spin pre n = Some (n1, out_pre) /\
       spin post (set_last_ekf_twist_msg_ (Some m) n1)
         = Some (n', out_post) /\
       spin (pre ++ (clk, ekf_twist_sub_ m) :: post) n
         = Some (n', out_pre ++ fused_twist_pub_ fused :: out_post) /\
       twist_blend (ekf_twist_weight_ n) (filter_twist_weight_ n)
         m f fused) /\
  (forall pre m clk post n e,
     latest (last_ekf_twist_msg_ n) (ekf_twist_samples pre) = Some e ->
     exists n1 out_pre fused n' out_post,
       spin pre n = Some (n1, out_pre) /\
       spin post (set_last_filter_twist_msg_ (Some m) n1)
         = Some (n', out_post) /\
       spin (pre ++ (clk, filter_twist_sub_ m) :: post) n
         = Some (n', out_pre ++ fused_twist_pub_ fused :: out_post) /\
       twist_blend (ekf_twist_weight_ n) (filter_twist_weight_ n)
         e m fused).
Proof.
  assert (Hlidar :
    (forall m g clk n,
       last_gnss_msg_ n = Some g ->
       exists fused tf,
         dispatch (lidar_pose_sub_ m) clk n
           = Some (tt, set_last_lidar_msg_ (Some m) n,
                   [final_pose_pub_ fused; tf_broadcaster_ tf]) /\
         pose_blend (lidar_weight_ n) (gnss_weight_ n) m g fused)).
  { intros m g clk n Hg.
      destruct (fusePoses_run clk (set_last_lidar_msg_ (Some m) n) m g
                  eq_refl Hg)
        as (fused & tf & Hrun & _ & _ & Hpos & Hq & _ & Hcov).
      exists fused, tf. split.
      + rewrite dispatch_run. cbn [role_of counterpart cached pair_of fuse store].
        rewrite Hg, bool_decide_eq_true_2 by eauto. exact Hrun.
      + unfold pose_blend. rewrite Hpos. auto. }
  assert (Hgnss :
    (forall m l clk n,
       last_lidar_msg_ n = Some l ->
       exists fused tf,
         dispatch (gnss_pose_sub_ m) clk n
           = Some (tt, set_last_gnss_msg_ (Some m) n,
                   [final_pose_pub_ fused; tf_broadcaster_ tf]) /\
         pose_blend (lidar_weight_ n) (gnss_weight_ n) l m fused)).
  { intros m l clk n Hl.
      destruct (fusePoses_run clk (set_last_gnss_msg_ (Some m) n) l m
                  Hl eq_refl)
        as (fused & tf & Hrun & _ & _ & Hpos & Hq & _ & Hcov).
      exists fused, tf. split.
      + rewrite dispatch_run. cbn [role_of counterpart cached pair_of fuse store].
        rewrite Hl, bool_decide_eq_true_2 by eauto. exact Hrun.
      + unfold pose_blend. rewrite Hpos. auto. }
  assert (Hekf :
    (forall m f clk n,
       last_filter_twist_msg_ n = Some f ->
       exists fused,
         dispatch (ekf_twist_sub_ m) clk n
           = Some (tt, set_last_ekf_twist_msg_ (Some m) n,
                   [fused_twist_pub_ fused]) /\
         twist_blend (ekf_twist_weight_ n) (filter_twist_weight_ n)
           m f fused)).
  { intros m f clk n Hf.
      destruct (fuseTwists_run clk (set_last_ekf_twist_msg_ (Some m) n) m f
                  eq_refl Hf)
        as (fused & Hrun & _ & _ & Hang & _ & Hcov).
      exists fused. split.
      + rewrite dispatch_run. cbn [role_of counterpart cached pair_of fuse store].
        rewrite Hf, bool_decide_eq_true_2 by eauto. exact Hrun.
      + unfold twist_blend. rewrite Hang. auto. }
  assert (Hfilter :
    (forall m e clk n,
       last_ekf_twist_msg_ n = Some e ->
       exists fused,
         dispatch (filter_twist_sub_ m) clk n
           = Some (tt, set_last_filter_twist_msg_ (Some m) n,
                   [fused_twist_pub_ fused]) /\
         twist_blend (ekf_twist_weight_ n) (filter_twist_weight_ n)
           e m fused)).
  { intros m e clk n He.
      destruct (fuseTwists_run clk (set_last_filter_twist_msg_ (Some m) n) e m
                  He eq_refl)
        as (fused & Hrun & _ & _ & Hang & _ & Hcov).
      exists fused. split.
      + rewrite dispatch_run. cbn [role_of counterpart cached pair_of fuse store].
        rewrite He, bool_decide_eq_true_2 by eauto. exact Hrun.
      + unfold twist_blend. rewrite Hang. auto. }
  assert (Hcount :
    (forall p arrivals n,
       (forall r, pair_of r = p -> cached n r = true) ->
       exists n' out,
         spin arrivals n = Some (n', out) /\
         count (is_fused_sample p) out = arrivals_on p arrivals)).
  { intros p arrivals. induction arrivals as [|[clk a] rest IH]; intros n Hn.
      + exists n, []. split; reflexivity.
      + destruct (dispatch_total a clk n) as (out1 & Hrun & _ & Hsome & Hby).
        destruct (IH (store a n)) as (n' & out2 & Hspin & Hcount).
        { intros r Hr. apply cached_store_other, Hn, Hr. }
        exists n', (out1 ++ out2). split.
        { rewrite (spin_cons _ _ _ _ _ Hrun), Hspin. reflexivity. }
        rewrite count_app, Hcount. unfold arrivals_on at 2.
        rewrite filter_cons. cbn [snd].
        destruct (decide (pair_of (role_of a) = p)) as [Hp|Hp].
        * destruct Hsome as (_ & Hone & _).
          { apply Hn. rewrite <- Hp. destruct (role_of a); reflexivity. }
          rewrite <- Hp at 1. rewrite Hone. reflexivity.
        * rewrite (count_other_pair p _ out1 Hby) by congruence. reflexivity. }
  repeat apply conj;
    [exact Hlidar|exact Hgnss|exact Hekf|exact Hfilter|exact Hcount|..].
  - intros pre m clk post n g Hlatest.
    destruct (spin_concat pre ((clk, lidar_pose_sub_ m) :: post) n)
      as (n1 & out_pre & n' & out_k & Hpre & Hk & Hall).
    destruct (spin_slots _ _ _ _ Hpre) as (_ & Hg & _ & _ & W1 & W2 & _).
    rewrite Hlatest in Hg.
    destruct (Hlidar m g clk n1 Hg) as (fused & tf & Hd & Hblend).
    rewrite (spin_cons _ _ _ _ _ Hd) in Hk. cbn [store] in Hk.
    destruct (spin post (set_last_lidar_msg_ (Some m) n1))
      as [[n2 out_post]|] eqn:Hpost; [|discriminate Hk].
    injection Hk as -> <-.
    exists n1, out_pre, fused, tf, n', out_post.
    rewrite <- W1, <- W2. auto.
  - intros pre m clk post n l Hlatest.
    destruct (spin_concat pre ((clk, gnss_pose_sub_ m) :: post) n)
      as (n1 & out_pre & n' & out_k & Hpre & Hk & Hall).
    destruct (spin_slots _ _ _ _ Hpre) as (Hl & _ & _ & _ & W1 & W2 & _).
    rewrite Hlatest in Hl.
    destruct (Hgnss m l clk n1 Hl) as (fused & tf & Hd & Hblend).
    rewrite (spin_cons _ _ _ _ _ Hd) in Hk. cbn [store] in Hk.
    destruct (spin post (set_last_gnss_msg_ (Some m) n1))
      as [[n2 out_post]|] eqn:Hpost; [|discriminate Hk].
    injection Hk as -> <-.
    exists n1, out_pre, fused, tf, n', out_post.
    rewrite <- W1, <- W2. auto.
  - intros pre m clk post n f Hlatest.
    destruct (spin_concat pre ((clk, ekf_twist_sub_ m) :: post) n)
      as (n1 & out_pre & n' & out_k & Hpre & Hk & Hall).
    destruct (spin_slots _ _ _ _ Hpre)
      as (_ & _ & _ & Hf & _ & _ & W3 & W4).
    rewrite Hlatest in Hf.
    destruct (Hekf m f clk n1 Hf) as (fused & Hd & Hblend).
    rewrite (spin_cons _ _ _ _ _ Hd) in Hk. cbn [store] in Hk.
    destruct (spin post (set_last_ekf_twist_msg_ (Some m) n1))
      as [[n2 out_post]|] eqn:Hpost; [|discriminate Hk].
    injection Hk as -> <-.
    exists n1, out_pre, fused, n', out_post.
    rewrite <- W3, <- W4. auto.
  - intros pre m clk post n e Hlatest.
    destruct (spin_concat pre ((clk, filter_twist_sub_ m) :: post) n)
      as (n1 & out_pre & n' & out_k & Hpre & Hk & Hall).
    destruct (spin_slots _ _ _ _ Hpre)
      as (_ & _ & He & _ & _ & _ & W3 & W4).
    rewrite Hlatest in He.
    destruct (Hfilter m e clk n1 He) as (fused & Hd & Hblend).
    rewrite (spin_cons _ _ _ _ _ Hd) in Hk. cbn [store] in Hk.
    destruct (spin post (set_last_filter_twist_msg_ (Some m) n1))
      as [[n2 out_post]|] eqn:Hpost; [|discriminate Hk].
    injection Hk as -> <-.
    exists n1, out_pre, fused, n', out_post.
    rewrite <- W3, <- W4. auto.
Qed.

Lemma ready_pair_fuses_on_every_arrival_witness :
  (exists fused tf,
     dispatch (lidar_pose_sub_ pose_B) clock_9 (node_with 0.5 0.5)
       = Some (tt, set_last_lidar_msg_ (Some pose_B) (node_with 0.5 0.5),
               [final_pose_pub_ fused; tf_broadcaster_ tf]) /\
     Point.x (pose_position fused) = 3) /\
  (exists n' out,
     spin [(Time.mk 1 0, gnss_pose_sub_ pose_A);
           (Time.mk 2 0, ekf_twist_sub_ twist_A);
           (Time.mk 3 0, lidar_pose_sub_ pose_B);
           (Time.mk 4 0, gnss_pose_sub_ pose_B)] (node_with 0.5 0.5)
       = Some (n', out) /\
     count (is_fused_sample position_pair) out = 3%nat) /\
  (exists n1 out_pre fused tf n' out_post,
     spin [(Time.mk 1 0, gnss_pose_sub_ pose_A)] (node_with 0.5 0.5)
       = Some (n1, out_pre) /\
     spin [(Time.mk 3 0, ekf_twist_sub_ twist_A)]
       (set_last_lidar_msg_ (Some pose_B) n1) = Some (n', out_post) /\
     spin ([(Time.mk 1 0, gnss_pose_sub_ pose_A)]
           ++ (Time.mk 2 0, lidar_pose_sub_ pose_B)
              :: [(Time.mk 3 0, ekf_twist_sub_ twist_A)])
       (node_with 0.5 0.5)
       = Some (n', out_pre
                   ++ final_pose_pub_ fused :: tf_broadcaster_ tf
                      :: out_post) /\
     Point.x (pose_position fused) = 2).
Proof.
  destruct ready_pair_fuses_on_every_arrival
    as (Hl & _ & _ & _ & Hn & Hrun & _).
  split; [|split].
  - destruct (Hl pose_B pose_B clock_9 (node_with 0.5 0.5) eq_refl)
      as (fused & tf & Hd & Hx & _).
    exists fused, tf. split; [exact Hd|]. rewrite Hx. reflexivity.
  - apply (Hn position_pair). intros []; cbn; congruence.
  - destruct (Hrun [(Time.mk 1 0, gnss_pose_sub_ pose_A)] pose_B
                (Time.mk 2 0) [(Time.mk 3 0, ekf_twist_sub_ twist_A)]
                (node_with 0.5 0.5) pose_A eq_refl)
      as (n1 & out_pre & fused & tf & n' & out_post
          & Hpre & Hpost & Hall & Hx & _).
    exists n1, out_pre, fused, tf, n', out_post.
    repeat (split; [assumption|]). rewrite Hx. reflexivity.
Defined.

(** ** Doubles at the weights 1 and 0

    The binary64 facts behind the boundary weights, from the
    specification of the primitive operations: [1 * a] is [a] for every
    double; [0 * b] is a zero only when [b] is finite (it is NaN for an
    infinite or NaN [b]); adding a zero gives the other operand back
    unless that operand is the negative zero. *)

Lemma Prim2SF_one : Prim2SF 1 = S754_finite false 4503599627370496 (-52).
Proof. reflexivity. Qed.
Lemma Prim2SF_zero : Prim2SF 0 = S754_zero false.
Proof. reflexivity. Qed.

Lemma digits2_pos_iter_xO (m k : positive) :
  Zpos (digits2_pos (Pos.iter xO m k)) = (Zpos (digits2_pos m) + Zpos k)%Z.
Proof.
  induction k as [|k IH] using Pos.peano_ind.
  - change (Pos.iter xO m 1) with (m~0)%positive. cbn [digits2_pos]. lia.
  - rewrite Pos.iter_succ. cbn [digits2_pos]. lia.
Qed.

Lemma digits2_pos_shift52 (m : positive) :
  Zpos (digits2_pos (4503599627370496 * m)) = (Zpos (digits2_pos m) + 52)%Z.
Proof.
  change (4503599627370496 * m)%positive with (Pos.iter xO m 52).
  apply digits2_pos_iter_xO.
Qed.

Lemma shr_fexp_canonical (m : positive) (e : Z) :
  fexp prec emax (Z.pos (digits2_pos m) + e) = e ->
  shr_fexp prec emax (Zpos m) e loc_Exact
  = (Build_shr_record (Zpos m) false false, e).
Proof.
  intros Hc. unfold shr_fexp. cbn [Zdigits2]. rewrite Hc, Z.sub_diag.
  reflexivity.
Qed.

Lemma shr_fexp_shift52 (m : positive) (e : Z) :
  fexp prec emax (Z.pos (digits2_pos m) + e) = e ->
  shr_fexp prec emax (Zpos (4503599627370496 * m)) (-52 + e) loc_Exact
  = (Build_shr_record (Zpos m) false false, e).
Proof.
  intros Hc. unfold shr_fexp. cbn [Zdigits2].
  rewrite digits2_pos_shift52.
  replace (Z.pos (digits2_pos m) + 52 + (-52 + e))%Z
    with (Z.pos (digits2_pos m) + e)%Z by lia.
  rewrite Hc.
  replace (e - (-52 + e))%Z with 52%Z by lia.
  cbn [shr_record_of_loc shr].
  replace (-52 + e + 52)%Z with e by lia. reflexivity.
Qed.

Lemma SF64mul_one_finite (s : bool) (m : positive) (e : Z) :
  valid_binary (S754_finite s m e) = true ->
  SF64mul (S754_finite false 4503599627370496 (-52)) (S754_finite s m e)
  = S754_finite s m e.
Proof.
  cbn [SpecFloat.valid_binary]. unfold bounded, canonical_mantissa.
  intros H. apply andb_prop in H as [Hc He].
  apply Z.eqb_eq in Hc.
  unfold SF64mul, SFmul. cbn [xorb].
  unfold binary_round_aux.
  rewrite (shr_fexp_shift52 m e Hc).
  cbn [shr_m loc_of_shr_record round_nearest_even].
  rewrite (shr_fexp_canonical m e Hc). cbn [shr_m].
  rewrite He. reflexivity.
Qed.

Lemma SF64mul_one_l (x : spec_float) :
  valid_binary x = true ->
  SF64mul (S754_finite false 4503599627370496 (-52)) x = x.
Proof.
  destruct x as [s|s| |s m e]; intros Hv; try reflexivity.
  apply SF64mul_one_finite, Hv.
Qed.

Lemma double_mul_1_l (a : float) : 1 * a = a.
Proof.
  apply Prim2SF_inj. rewrite mul_spec, Prim2SF_one.
  apply SF64mul_one_l, Prim2SF_valid.
Qed.

Lemma finite_spec (x : float) :
  finite x = true ->
  (exists s, Prim2SF x = S754_zero s) \/
  (exists s m e, Prim2SF x = S754_finite s m e).
Proof.
  unfold finite. rewrite classify_spec. unfold SF64classify, SFclassify.
  destruct (Prim2SF x) as [s|s| |s m e]; eauto; try discriminate.
  destruct s; discriminate.
Qed.

Lemma not_neg_zero_spec (x : float) :
  is_neg_zero x = false -> Prim2SF x <> S754_zero true.
Proof.
  unfold is_neg_zero. rewrite classify_spec. intros H E. rewrite E in H.
  discriminate.
Qed.

Lemma double_mul_0_finite (b : float) :
  finite b = true -> exists s, Prim2SF (0 * b) = S754_zero s.
Proof.
  intros H. rewrite mul_spec, Prim2SF_zero.
  destruct (finite_spec b H) as [[s ->]|(s & m & e & ->)]; eexists; reflexivity.
Qed.

Lemma double_add_zero_r (a z : float) (s : bool) :
  Prim2SF z = S754_zero s -> is_neg_zero a = false -> a + z = a.
Proof.
  intros Hz Ha. apply not_neg_zero_spec in Ha.
  apply Prim2SF_inj. rewrite add_spec, Hz.
  destruct (Prim2SF a) as [sa|sa| |sa m e]; try reflexivity.
  destruct sa, s; try reflexivity; congruence.
Qed.

Lemma double_add_zero_l (a z : float) (s : bool) :
  Prim2SF z = S754_zero s -> is_neg_zero a = false -> z + a = a.
Proof.
  intros Hz Ha. apply not_neg_zero_spec in Ha.
  apply Prim2SF_inj. rewrite add_spec, Hz.
  destruct (Prim2SF a) as [sa|sa| |sa m e]; try reflexivity.
  destruct sa, s; try reflexivity; congruence.
Qed.

Lemma blend_1_0 (a b : float) :
  finite b = true -> is_neg_zero a = false -> 1 * a + 0 * b = a.
Proof.
  intros Hb Ha. rewrite double_mul_1_l.
  destruct (double_mul_0_finite b Hb) as [s Hs].
  exact (double_add_zero_r a _ s Hs Ha).
Qed.

Lemma blend_0_1 (a b : float) :
  finite a = true -> is_neg_zero b = false -> 0 * a + 1 * b = b.
Proof.
  intros Ha Hb. rewrite double_mul_1_l.
  destruct (double_mul_0_finite a Ha) as [s Hs].
  exact (double_add_zero_l b _ s Hs Hb).
Qed.

Lemma keeps_1_0 (a b : float) : keeps a b (1 * a + 0 * b).
Proof. intros Hb Ha. apply blend_1_0; assumption. Qed.

Lemma keeps_0_1 (a b : float) : keeps b a (0 * a + 1 * b).
Proof. intros Ha Hb. apply blend_0_1; assumption. Qed.

(** ** The boundary weights *)

(** C7, as stated, fails on the code. With weights (1, 0) and an
    infinite x in the gnss sample, the fused x is [1 * 1 + 0 * infinity],
    which is NaN, not the lidar sample's 1; with weights (1, 0) and a
    lidar x of -0.0 the fused x is [-0.0 + 0.0], the positive zero; and
    with weights (0, 1) the fused orientation is still the lidar
    sample's, not the gnss sample's. *)
Lemma boundary_weights_counterexample :
  (lidar_weight_ node_1_0_neg_zero = 1 /\
   gnss_weight_ node_1_0_neg_zero = 0 /\
   last_lidar_msg_ node_1_0_neg_zero = Some pose_A_neg_zero /\
   last_gnss_msg_ node_1_0_neg_zero = Some pose_B /\
   exists fused tf,
     fusePoses clock_9 node_1_0_neg_zero
       = Some (tt, node_1_0_neg_zero,
               [final_pose_pub_ fused; tf_broadcaster_ tf]) /\
     Point.x (pose_position fused) = 0 /\
     Point.x (pose_position fused)
       <> Point.x (pose_position pose_A_neg_zero)) /\
  (lidar_weight_ node_1_0_inf = 1 /\ gnss_weight_ node_1_0_inf = 0 /\
   last_lidar_msg_ node_1_0_inf = Some pose_A /\
   last_gnss_msg_ node_1_0_inf = Some pose_B_inf /\
   exists fused tf,
     fusePoses clock_9 node_1_0_inf
       = Some (tt, node_1_0_inf,
               [final_pose_pub_ fused; tf_broadcaster_ tf]) /\
     Point.x (pose_position fused) = nan /\
     Point.x (pose_position fused) <> Point.x (pose_position pose_A)) /\
  (lidar_weight_ (node_with 0 1) = 0 /\ gnss_weight_ (node_with 0 1) = 1 /\
   last_lidar_msg_ (node_with 0 1) = Some pose_A /\
   last_gnss_msg_ (node_with 0 1) = Some pose_B /\
   exists fused tf,
     fusePoses clock_9 (node_with 0 1)
       = Some (tt, node_with 0 1,
               [final_pose_pub_ fused; tf_broadcaster_ tf]) /\
     pose_orientation fused <> pose_orientation pose_B).
Proof.
  repeat apply conj; try reflexivity.
  - eexists _, _. split; [reflexivity|]. split; [reflexivity|].
    intros H. apply (f_equal classify) in H. discriminate H.
  - eexists _, _. split; [reflexivity|]. split; [reflexivity|].
    intros H. apply (f_equal is_nan) in H. discriminate H.
  - eexists _, _. split; [reflexivity|].
    intros H. apply (f_equal (fun q => is_zero (Quaternion.w q))) in H.
    discriminate H.
Qed.

(** C7, amended. The fused orientation is the lidar sample's under any
    weights. With weights (1, 0) each blended double (position x, y, z,
    each covariance entry, the twist's angular z) is the primary
    sample's whenever the secondary sample's double at the same place is
    finite and the primary's is not the negative zero; with weights
    (0, 1) it is the secondary sample's whenever the primary's is finite
    and the secondary's is not the negative zero. *)
Theorem boundary_weights_keep_finite_sample :
  (forall clk n A B,
     last_lidar_msg_ n = Some A ->
     last_gnss_msg_ n = Some B ->
     exists fused tf,
       fusePoses clk n
         = Some (tt, n, [final_pose_pub_ fused; tf_broadcaster_ tf]) /\
       pose_orientation fused = pose_orientation A /\
       (lidar_weight_ n = 1 -> gnss_weight_ n = 0 ->
        keeps (Point.x (pose_position A)) (Point.x (pose_position B))
          (Point.x (pose_position fused)) /\
        keeps (Point.y (pose_position A)) (Point.y (pose_position B))
          (Point.y (pose_position fused)) /\
        keeps (Point.z (pose_position A)) (Point.z (pose_position B))
          (Point.z (pose_position fused)) /\
        forall i, (i < 36)%nat ->
          keeps (at36 (pose_covariance A) i) (at36 (pose_covariance B) i)
            (at36 (pose_covariance fused) i)) /\
       (lidar_weight_ n = 0 -> gnss_weight_ n = 1 ->
        keeps (Point.x (pose_position B)) (Point.x (pose_position A))
          (Point.x (pose_position fused)) /\
        keeps (Point.y (pose_position B)) (Point.y (pose_position A))
          (Point.y (pose_position fused)) /\
        keeps (Point.z (pose_position B)) (Point.z (pose_position A))
          (Point.z (pose_position fused)) /\
        forall i, (i < 36)%nat ->
          keeps (at36 (pose_covariance B) i) (at36 (pose_covariance A) i)
            (at36 (pose_covariance fused) i))) /\
  (forall clk n A B,
     last_ekf_twist_msg_ n = Some A ->
     last_filter_twist_msg_ n = Some B ->
     exists fused,
       fuseTwists clk n = Some (tt, n, [fused_twist_pub_ fused]) /\
       (ekf_twist_weight_ n = 1 -> filter_twist_weight_ n = 0 ->
        keeps (Vector3.z (twist_angular A)) (Vector3.z (twist_angular B))
          (Vector3.z (twist_angular fused)) /\
        forall i, (i < 36)%nat ->
          keeps (at36 (twist_covariance A) i) (at36 (twist_covariance B) i)
            (at36 (twist_covariance fused) i)) /\
       (ekf_twist_weight_ n = 0 -> filter_twist_weight_ n = 1 ->
        keeps (Vector3.z (twist_angular B)) (Vector3.z (twist_angular A))
          (Vector3.z (twist_angular fused)) /\
        forall i, (i < 36)%nat ->
          keeps (at36 (twist_covariance B) i) (at36 (twist_covariance A) i)
            (at36 (twist_covariance fused) i))).
Proof.
  split; intros clk n A B HA HB.
  - destruct (fusePoses_run clk n A B HA HB)
      as (fused & tf & Hrun & _ & _ & Hpos & Hq & _ & Hcov).
    exists fused, tf. split; [exact Hrun|]. split; [exact Hq|].
    rewrite Hpos. cbn [Point.x Point.y Point.z].
    split; intros H1 H2; rewrite H1, H2 in *.
    + do 3 (split; [apply keeps_1_0|]).
      intros i Hi. rewrite (Hcov i Hi). apply keeps_1_0.
    + do 3 (split; [apply keeps_0_1|]).
      intros i Hi. rewrite (Hcov i Hi). apply keeps_0_1.
  - destruct (fuseTwists_run clk n A B HA HB)
      as (fused & Hrun & _ & _ & Hang & _ & Hcov).
    exists fused. split; [exact Hrun|].
    rewrite Hang. cbn [Vector3.z].
    split; intros H1 H2; rewrite H1, H2 in *.
    + split; [apply keeps_1_0|].
      intros i Hi. rewrite (Hcov i Hi). apply keeps_1_0.
    + split; [apply keeps_0_1|].
      intros i Hi. rewrite (Hcov i Hi). apply keeps_0_1.
Qed.

Lemma boundary_weights_keep_finite_sample_witness :
  (exists fused tf,
     fusePoses clock_9 (node_with 1 0)
       = Some (tt, node_with 1 0,
               [final_pose_pub_ fused; tf_broadcaster_ tf]) /\
     Point.x (pose_position fused) = 1 /\
     at36 (pose_covariance fused) 7 = 0.25) /\
  (exists fused,
     fuseTwists clock_9 (node_with 0 1)
       = Some (tt, node_with 0 1, [fused_twist_pub_ fused]) /\
     Vector3.z (twist_angular fused) = 3 /\
     at36 (twist_covariance fused) 7 = 0.75).
Proof.
  destruct boundary_weights_keep_finite_sample as [Hp Ht].
  split.
  - destruct (Hp clock_9 (node_with 1 0) pose_A pose_B eq_refl eq_refl)
      as (fused & tf & Hrun & _ & H10 & _).
    destruct (H10 eq_refl eq_refl) as (Hx & _ & _ & Hcov).
    exists fused, tf. split; [exact Hrun|]. split.
    + apply Hx; reflexivity.
    + apply (Hcov 7%nat ltac:(lia)); reflexivity.
  - destruct (Ht clock_9 (node_with 0 1) twist_A twist_B eq_refl eq_refl)
      as (fused & Hrun & _ & H01).
    destruct (H01 eq_refl eq_refl) as (Hz & Hcov).
    exists fused. split; [exact Hrun|]. split.
    + apply Hz; reflexivity.
    + apply (Hcov 7%nat ltac:(lia)); reflexivity.
Defined.

(** ** Null pointers *)

(** X1. [fusePoses] and [fuseTwists] dereference the cached pointers of
    their pair without a test of their own: each runs to its end exactly
    when both pointers of its pair are set, and faults when one is
    null. *)
Theorem fuse_faults_iff_null_slot (clk : Time.t) (n : PoseFusionNode) :
  (fusePoses clk n = None
   <-> last_lidar_msg_ n = None \/ last_gnss_msg_ n = None) /\
  (fuseTwists clk n = None
   <-> last_ekf_twist_msg_ n = None \/ last_filter_twist_msg_ n = None).
Proof.
  split; split.
  - intros Hf.
    destruct (last_lidar_msg_ n) as [A|] eqn:HA; [|auto].
    destruct (last_gnss_msg_ n) as [B|] eqn:HB; [|auto].
    destruct (fusePoses_run clk n A B HA HB) as (? & ? & Hrun & _).
    congruence.
  - unfold fusePoses, bind, this, deref.
    intros [H|H]; rewrite H; [reflexivity|].
    destruct (last_lidar_msg_ n); reflexivity.
  - intros Hf.
    destruct (last_ekf_twist_msg_ n) as [A|] eqn:HA; [|auto].
    destruct (last_filter_twist_msg_ n) as [B|] eqn:HB; [|auto].
    destruct (fuseTwists_run clk n A B HA HB) as (? & Hrun & _).
    congruence.
  - unfold fuseTwists, bind, this, deref, now.
    intros [H|H]; rewrite H; [reflexivity|].
    destruct (last_ekf_twist_msg_ n); reflexivity.
Qed.

(** X2. The callbacks never let that fault happen: from any node, any
    sequence of arrivals is processed to its end, and the node it leaves
    is the one the member assignments alone produce (a fusion changes no
    member). *)
Theorem spin_never_faults (arrivals : list (Time.t * Arrival))
    (n : PoseFusionNode) :
  exists out, spin arrivals n = Some (stores arrivals n, out).
Proof.
  revert n. induction arrivals as [|[clk a] rest IH]; intros n.
  - exists []. reflexivity.
  - destruct (dispatch_total a clk n) as (out1 & Hrun & _).
    destruct (IH (store a n)) as (out2 & Hspin).
    exists (out1 ++ out2).
    rewrite (spin_cons _ _ _ _ _ Hrun), Hspin. reflexivity.
Qed.

(** ** The cache *)

(** X3. After a run each cached pointer holds the sample of the last
    arrival on its subscription, or what it held before the run when
    nothing arrived on it; earlier samples are gone, and the four weights
    are what they were. *)
Theorem cache_holds_latest_sample (arrivals : list (Time.t * Arrival))
    (n : PoseFusionNode) :
  exists n' out,
    spin arrivals n = Some (n', out) /\
    last_lidar_msg_ n'
      = latest (last_lidar_msg_ n) (lidar_samples arrivals) /\
    last_gnss_msg_ n'
      = latest (last_gnss_msg_ n) (gnss_samples arrivals) /\
    last_ekf_twist_msg_ n'
      = latest (last_ekf_twist_msg_ n) (ekf_twist_samples arrivals) /\
    last_filter_twist_msg_ n'
      = latest (last_filter_twist_msg_ n) (filter_twist_samples arrivals) /\
    lidar_weight_ n' = lidar_weight_ n /\
    gnss_weight_ n' = gnss_weight_ n /\
    ekf_twist_weight_ n' = ekf_twist_weight_ n /\
    filter_twist_weight_ n' = filter_twist_weight_ n.
Proof.
  destruct (spin_total arrivals n) as (n' & out & Hspin).
  exists n', out. split; [exact Hspin|].
  exact (spin_slots arrivals n n' out Hspin).
Qed.

(** ** What a run sends *)

(** What one callback sends: nothing, or the fused pose and transform of
    the node it has updated, or the fused twist of that node. *)
Lemma dispatch_cases (a : Arrival) (clk : Time.t) (n : PoseFusionNode) :
  exists out,
    dispatch a clk n = Some (tt, store a n, out) /\
    (out = [] \/
     (exists A B fused tf,
        last_lidar_msg_ (store a n) = Some A /\
        last_gnss_msg_ (store a n) = Some B /\
        out = [final_pose_pub_ fused; tf_broadcaster_ tf] /\
        fusePoses clk (store a n) = Some (tt, store a n, out)) \/
     (exists A B fused,
        last_ekf_twist_msg_ (store a n) = Some A /\
        last_filter_twist_msg_ (store a n) = Some B /\
        out = [fused_twist_pub_ fused] /\
        fuseTwists clk (store a n) = Some (tt, store a n, out))).
Proof.
  destruct (dispatch_total a clk n) as (out & Hrun & Hnone & Hsome & _).
  exists out. split; [exact Hrun|].
  destruct (cached n (counterpart (role_of a))) eqn:Hc; [|auto].
  destruct (Hsome eq_refl) as (Hfuse & _).
  pose proof (cached_store_own a n) as Hown.
  pose proof (cached_store_other a n _ Hc) as Hother.
  apply cached_slot in Hown. apply cached_slot in Hother.
  right.
  destruct (role_of a); cbn [counterpart pair_of fuse] in *;
    destruct Hown as [m1 H1]; destruct Hother as [m2 H2].
  - left. destruct (fusePoses_run clk _ _ _ H1 H2) as (p & tf & Hr & _).
    exists m1, m2, p, tf. rewrite Hr in Hfuse. injection Hfuse as <-. auto.
  - left. destruct (fusePoses_run clk _ _ _ H2 H1) as (p & tf & Hr & _).
    exists m2, m1, p, tf. rewrite Hr in Hfuse. injection Hfuse as <-. auto.
  - right. destruct (fuseTwists_run clk _ _ _ H1 H2) as (p & Hr & _).
    exists m1, m2, p. rewrite Hr in Hfuse. injection Hfuse as <-. auto.
  - right. destruct (fuseTwists_run clk _ _ _ H2 H1) as (p & Hr & _).
    exists m2, m1, p. rewrite Hr in Hfuse. injection Hfuse as <-. auto.
Qed.

Lemma pose_then_transform_app (l k : list Emission) :
  pose_then_transform l -> pose_then_transform k ->
  pose_then_transform (l ++ k).
Proof.
  intros Hl Hk. induction Hl; cbn [app]; try constructor; assumption.
Qed.

Lemma pose_then_transform_count (out : list Emission) :
  pose_then_transform out ->
  count is_transform out = count (is_fused_sample position_pair) out.
Proof.
  intros H. induction H as [|m rest _ IH|p tf rest _ _ IH].
  - reflexivity.
  - unfold count in *. rewrite !filter_cons.
    repeat (destruct (decide _) as [?|?]; try discriminate). exact IH.
  - unfold count in *. rewrite !filter_cons.
    repeat (destruct (decide _) as [?|?]; try discriminate;
            cbn in *; try congruence).
Qed.

(** X4. In everything a run sends, each fused pose is directly followed
    by the transform made from it (same stamp, translation and rotation)
    and a transform appears nowhere else, so as many transforms as fused
    poses are sent. *)
Theorem every_pose_is_followed_by_its_transform
    (arrivals : list (Time.t * Arrival)) (n : PoseFusionNode) :
  exists out,
    spin arrivals n = Some (stores arrivals n, out) /\
    pose_then_transform out /\
    count is_transform out = count (is_fused_sample position_pair) out.
Proof.
  assert (H : exists out,
    spin arrivals n = Some (stores arrivals n, out) /\
    pose_then_transform out).
  { revert n. induction arrivals as [|[clk a] rest IH]; intros n.
    - exists []. split; [reflexivity | constructor].
    - destruct (dispatch_cases a clk n) as (out1 & Hrun & Hcase).
      destruct (IH (store a n)) as (out2 & Hspin & Hptt).
      exists (out1 ++ out2). split.
      { rewrite (spin_cons _ _ _ _ _ Hrun), Hspin. reflexivity. }
      apply pose_then_transform_app; [|exact Hptt].
      destruct Hcase as [->|[(A & B & p & tf & HA & HB & -> & Hfuse)
                            |(A & B & p & _ & _ & -> & _)]].
      + constructor.
      + destruct (fusePoses_run clk _ A B HA HB)
          as (p' & tf' & Hr & Htf & _).
        rewrite Hr in Hfuse. injection Hfuse as -> ->.
        destruct (broadcastTransform_run p clk (store a n))
          as (tf'' & Hr' & Hs & _ & _ & Hx & Hy & Hz & Hq).
        assert (tf'' = tf) as -> by congruence.
        constructor; [|constructor]. repeat split; assumption.
      + repeat constructor. }
  destruct H as (out & Hspin & Hptt).
  exists out. auto using pose_then_transform_count.
Qed.

(** X5. Every header a run sends names the frame "map", whatever frames
    the arriving samples name. *)
Theorem every_emission_is_in_frame_map
    (arrivals : list (Time.t * Arrival)) (n : PoseFusionNode) :
  exists out,
    spin arrivals n = Some (stores arrivals n, out) /\
    Forall (fun e => frame_of e = "map"%string) out.
Proof.
  revert n. induction arrivals as [|[clk a] rest IH]; intros n.
  - exists []. split; [reflexivity | constructor].
  - destruct (dispatch_cases a clk n) as (out1 & Hrun & Hcase).
    destruct (IH (store a n)) as (out2 & Hspin & Hall).
    exists (out1 ++ out2). split.
    { rewrite (spin_cons _ _ _ _ _ Hrun), Hspin. reflexivity. }
    apply Forall_app. split; [|exact Hall].
    destruct Hcase as [->|[(A & B & p & tf & HA & HB & -> & Hfuse)
                          |(A & B & p & HA & HB & -> & Hfuse)]].
    + constructor.
    + destruct (fusePoses_run clk _ A B HA HB)
        as (p' & tf' & Hr & Htf & Hh & _).
      rewrite Hr in Hfuse. injection Hfuse as -> ->.
      destruct (broadcastTransform_run p clk (store a n))
        as (tf'' & Hr' & _ & Hparent & _).
      assert (tf'' = tf) as -> by congruence.
      repeat constructor; cbn [frame_of]; [rewrite Hh; reflexivity|].
      exact Hparent.
    + destruct (fuseTwists_run clk _ A B HA HB) as (p' & Hr & Hh & _).
      rewrite Hr in Hfuse. injection Hfuse as ->.
      repeat constructor. cbn [frame_of]. rewrite Hh. reflexivity.
Qed.

(** ** What a fusion reads *)

(** X6. [fusePoses] reads, besides its two weights, only the position,
    orientation and covariance of the lidar sample and the position and
    covariance of the gnss sample: cached samples that agree on these
    give the same fused pose and transform, whatever their headers
    (stamp, frame) and whatever the gnss orientation. [fuseTwists] reads
    only the angular z and the covariance of its two samples: their
    headers, linear velocities and angular x and y do not matter. *)
Theorem fusion_reads_only_blended_fields (clk : Time.t) :
  (forall n n' A B A' B',
     last_lidar_msg_ n = Some A -> last_gnss_msg_ n = Some B ->
     last_lidar_msg_ n' = Some A' -> last_gnss_msg_ n' = Some B' ->
     lidar_weight_ n = lidar_weight_ n' ->
     gnss_weight_ n = gnss_weight_ n' ->
     pose_position A = pose_position A' ->
     pose_orientation A = pose_orientation A' ->
     pose_covariance A = pose_covariance A' ->
     pose_position B = pose_position B' ->
     pose_covariance B = pose_covariance B' ->
     exists out,
       fusePoses clk n = Some (tt, n, out) /\
       fusePoses clk n' = Some (tt, n', out)) /\
  (forall n n' A B A' B',
     last_ekf_twist_msg_ n = Some A ->
     last_filter_twist_msg_ n = Some B ->
     last_ekf_twist_msg_ n' = Some A' ->
     last_filter_twist_msg_ n' = Some B' ->
     ekf_twist_weight_ n = ekf_twist_weight_ n' ->
     filter_twist_weight_ n = filter_twist_weight_ n' ->
     Vector3.z (twist_angular A) = Vector3.z (twist_angular A') ->
     twist_covariance A = twist_covariance A' ->
     Vector3.z (twist_angular B) = Vector3.z (twist_angular B') ->
     twist_covariance B = twist_covariance B' ->
     exists out,
       fuseTwists clk n = Some (tt, n, out) /\
       fuseTwists clk n' = Some (tt, n', out)).
Proof.
  split.
  - intros n n' A B A' B' HA HB HA' HB' W1 W2 Hp Hq Hc Hp' Hc'.
    unfold fusePoses, bind, this, deref, now, send, broadcastTransform.
    rewrite HA, HB, HA', HB', W1, W2.
    destruct A as [hA [[pA qA] cA]], A' as [hA' [[pA' qA'] cA']],
      B as [hB [[pB qB] cB]], B' as [hB' [[pB' qB'] cB']].
    cbn in Hp, Hq, Hc, Hp', Hc'. subst.
    eexists. split; reflexivity.
  - intros n n' A B A' B' HA HB HA' HB' W1 W2 Hz Hc Hz' Hc'.
    unfold fuseTwists, bind, this, deref, now, send.
    rewrite HA, HB, HA', HB', W1, W2.
    destruct A as [hA [[lA [xA yA zA]] cA]],
      A' as [hA' [[lA' [xA' yA' zA']] cA']],
      B as [hB [[lB [xB yB zB]] cB]], B' as [hB' [[lB' [xB' yB' zB']] cB']].
    cbn in Hz, Hc, Hz', Hc'. subst.
    eexists. split; reflexivity.
Qed.

Lemma fusion_reads_only_blended_fields_witness :
  (exists out,
     fusePoses clock_9 (node_with 0.5 0.5)
       = Some (tt, node_with 0.5 0.5, out) /\
     fusePoses clock_9
       (mkNode (Some pose_A_other_header) (Some pose_B_other_orientation)
          None None 0.5 0.5 0.25 0.125)
       = Some (tt,
               mkNode (Some pose_A_other_header)
                 (Some pose_B_other_orientation) None None
                 0.5 0.5 0.25 0.125,
               out)) /\
  (exists out,
     fuseTwists clock_9 (node_with 0.5 0.5)
       = Some (tt, node_with 0.5 0.5, out) /\
     fuseTwists clock_9
       (mkNode None None (Some twist_A_other_linear) (Some twist_B)
          1 1 0.5 0.5)
       = Some (tt,
               mkNode None None (Some twist_A_other_linear) (Some twist_B)
                 1 1 0.5 0.5,
               out)).
Proof.
  destruct (fusion_reads_only_blended_fields clock_9) as [Hp Ht].
  split.
  - apply (Hp _ _ pose_A pose_B pose_A_other_header
             pose_B_other_orientation); reflexivity.
  - apply (Ht _ _ twist_A twist_B twist_A_other_linear twist_B);
      reflexivity.
Defined.

(** ** The two pairs do not touch each other *)

Lemma fuse_same_pair_state (p : Pair) (clk : Time.t)
    (n m : PoseFusionNode) :
  same_pair_state p n m -> sent (fuse p clk n) = sent (fuse p clk m).
Proof.
  destruct n as [l g e f w1 w2 w3 w4], m as [l' g' e' f' w1' w2' w3' w4'].
  destruct p; cbn [same_pair_state last_lidar_msg_ last_gnss_msg_
    last_ekf_twist_msg_ last_filter_twist_msg_ lidar_weight_ gnss_weight_
    ekf_twist_weight_ filter_twist_weight_ fuse];
    intros (<- & <- & <- & <-).
  - destruct l as [l|], g as [g|]; reflexivity.
  - destruct e as [e|], f as [f|]; reflexivity.
Qed.

Lemma store_same_pair_state (p : Pair) (a : Arrival)
    (n m : PoseFusionNode) :
  same_pair_state p n m -> same_pair_state p (store a n) (store a m).
Proof.
  destruct p, a; cbn; intros (? & ? & ? & ?); repeat split; congruence.
Qed.

Lemma store_other_pair_state (p : Pair) (a : Arrival)
    (n m : PoseFusionNode) :
  pair_of (role_of a) <> p ->
  same_pair_state p n m -> same_pair_state p (store a n) m.
Proof.
  destruct p, a; cbn; intros Hp (? & ? & ? & ?); repeat split;
    congruence.
Qed.

Lemma cached_same_pair_state (p : Pair) (r : Role) (n m : PoseFusionNode) :
  same_pair_state p n m -> pair_of r = p -> cached n r = cached m r.
Proof.
  destruct p, r; cbn; intros (H1 & H2 & _) Hp; try discriminate Hp;
    rewrite ?H1, ?H2; reflexivity.
Qed.

Lemma emissions_of_own (p : Pair) (out : list Emission) :
  Forall (fun e => emitted_by e = p) out -> emissions_of p out = out.
Proof.
  intros H. induction H as [|e out He _ IH]; [reflexivity|].
  unfold emissions_of in *. rewrite filter_cons, decide_True by exact He.
  rewrite IH. reflexivity.
Qed.

Lemma emissions_of_other (p q : Pair) (out : list Emission) :
  Forall (fun e => emitted_by e = q) out -> q <> p ->
  emissions_of p out = [].
Proof.
  intros H Hq. induction H as [|e out He _ IH]; [reflexivity|].
  unfold emissions_of in *. rewrite filter_cons, decide_False by congruence.
  exact IH.
Qed.

Lemma spin_pairs_independent (p : Pair)
    (arrivals : list (Time.t * Arrival)) (n m : PoseFusionNode) :
  same_pair_state p n m ->
  exists out,
    spin arrivals n = Some (stores arrivals n, out) /\
    spin (arrivals_of p arrivals) m
      = Some (stores (arrivals_of p arrivals) m, emissions_of p out).
Proof.
  revert n m. induction arrivals as [|[clk a] rest IH]; intros n m Hnm.
  - exists []. split; reflexivity.
  - destruct (dispatch_total a clk n) as (out1 & Hrun & _ & _ & Hby).
    unfold arrivals_of. rewrite filter_cons. cbn [snd].
    destruct (decide (pair_of (role_of a) = p)) as [Hp|Hp].
    + destruct (IH (store a n) (store a m)) as (out2 & Hspin & Hspin').
      { apply store_same_pair_state, Hnm. }
      exists (out1 ++ out2). split.
      { rewrite (spin_cons _ _ _ _ _ Hrun), Hspin. reflexivity. }
      assert (Hrun' : dispatch a clk m = Some (tt, store a m, out1)).
      { destruct (dispatch_total a clk m) as (out1' & Hrun' & _).
        rewrite Hrun'. do 2 f_equal.
        rewrite dispatch_run in Hrun, Hrun'.
        rewrite <- (cached_same_pair_state p _ n m Hnm) in Hrun'
          by (rewrite <- Hp; destruct (role_of a); reflexivity).
        destruct (cached n (counterpart (role_of a))); [|congruence].
        pose proof (fuse_same_pair_state _ clk _ _
          (store_same_pair_state p a n m Hnm)) as Hs.
        rewrite Hp in Hrun, Hrun'. rewrite Hrun, Hrun' in Hs.
        cbn [sent] in Hs. congruence. }
      rewrite (spin_cons _ _ _ _ _ Hrun').
      fold (arrivals_of p rest). rewrite Hspin'.
      unfold emissions_of at 2. rewrite filter_app.
      fold (emissions_of p out1) (emissions_of p out2).
      rewrite (emissions_of_own p out1) by (rewrite <- Hp; exact Hby).
      reflexivity.
    + destruct (IH (store a n) m) as (out2 & Hspin & Hspin').
      { apply store_other_pair_state; assumption. }
      exists (out1 ++ out2). split.
      { rewrite (spin_cons _ _ _ _ _ Hrun), Hspin. reflexivity. }
      fold (arrivals_of p rest). rewrite Hspin'.
      unfold emissions_of at 2. rewrite filter_app.
      fold (emissions_of p out1) (emissions_of p out2).
      rewrite (emissions_of_other p _ out1 Hby Hp). reflexivity.
Qed.

(** X7. The two pairs do not influence each other: what a run sends for
    one pair is, emission for emission, what the node would send if only
    the arrivals on that pair had been delivered (at the same clock
    readings). *)
Theorem pairs_are_independent (p : Pair)
    (arrivals : list (Time.t * Arrival)) (n : PoseFusionNode) :
  exists out out_p,
    spin arrivals n = Some (stores arrivals n, out) /\
    spin (arrivals_of p arrivals) n
      = Some (stores (arrivals_of p arrivals) n, out_p) /\
    emissions_of p out = out_p.
Proof.
  destruct (spin_pairs_independent p arrivals n n) as (out & H1 & H2).
  { destruct p; repeat split. }
  exists out, (emissions_of p out). auto.
Qed.

(** ** NaN inputs *)

Lemma is_nan_eq_nan (x : float) : is_nan x = true -> x = nan.
Proof.
  intros H. apply Prim2SF_inj. unfold Prim2SF at 1. rewrite H. reflexivity.
Qed.

Lemma double_mul_nan_r (w : float) : w * nan = nan.
Proof.
  apply Prim2SF_inj. rewrite mul_spec.
  change (Prim2SF nan) with S754_nan.
  destruct (Prim2SF w); reflexivity.
Qed.

Lemma double_add_nan_l (x : float) : nan + x = nan.
Proof.
  apply Prim2SF_inj. rewrite add_spec.
  change (Prim2SF nan) with S754_nan. reflexivity.
Qed.

Lemma double_add_nan_r (x : float) : x + nan = nan.
Proof.
  apply Prim2SF_inj. rewrite add_spec.
  change (Prim2SF nan) with S754_nan.
  destruct (Prim2SF x); reflexivity.
Qed.

Lemma blend_nan (w1 w2 a b : float) :
  orb (is_nan a) (is_nan b) = true -> w1 * a + w2 * b = nan.
Proof.
  intros H. apply orb_prop in H as [H|H]; apply is_nan_eq_nan in H; subst.
  - rewrite double_mul_nan_r. apply double_add_nan_l.
  - rewrite double_mul_nan_r. apply double_add_nan_r.
Qed.

(** X8. A NaN in a sample is not rejected and reaches the output: under
    any weights, a blended double of the fused pose (position x, y, z,
    each covariance entry) or of the fused twist (angular z, each
    covariance entry) is NaN as soon as either sample's double at the
    same place is NaN. *)
Theorem nan_input_gives_nan_output (clk : Time.t) (n : PoseFusionNode) :
  (forall A B,
     last_lidar_msg_ n = Some A ->
     last_gnss_msg_ n = Some B ->
     exists fused tf,
       fusePoses clk n
         = Some (tt, n, [final_pose_pub_ fused; tf_broadcaster_ tf]) /\
       (orb (is_nan (Point.x (pose_position A)))
            (is_nan (Point.x (pose_position B))) = true ->
        Point.x (pose_position fused) = nan) /\
       (orb (is_nan (Point.y (pose_position A)))
            (is_nan (Point.y (pose_position B))) = true ->
        Point.y (pose_position fused) = nan) /\
       (orb (is_nan (Point.z (pose_position A)))
            (is_nan (Point.z (pose_position B))) = true ->
        Point.z (pose_position fused) = nan) /\
       (forall i, (i < 36)%nat ->
          orb (is_nan (at36 (pose_covariance A) i))
              (is_nan (at36 (pose_covariance B) i)) = true ->
          at36 (pose_covariance fused) i = nan)) /\
  (forall A B,
     last_ekf_twist_msg_ n = Some A ->
     last_filter_twist_msg_ n = Some B ->
     exists fused,
       fuseTwists clk n = Some (tt, n, [fused_twist_pub_ fused]) /\
       (orb (is_nan (Vector3.z (twist_angular A)))
            (is_nan (Vector3.z (twist_angular B))) = true ->
        Vector3.z (twist_angular fused) = nan) /\
       (forall i, (i < 36)%nat ->
          orb (is_nan (at36 (twist_covariance A) i))
              (is_nan (at36 (twist_covariance B) i)) = true ->
          at36 (twist_covariance fused) i = nan)).
Proof.
  split; intros A B HA HB.
  - destruct (fusePoses_run clk n A B HA HB)
      as (fused & tf & Hrun & _ & _ & Hpos & _ & _ & Hcov).
    exists fused, tf. split; [exact Hrun|].
    rewrite Hpos. cbn [Point.x Point.y Point.z].
    do 3 (split; [apply blend_nan|]).
    intros i Hi. rewrite (Hcov i Hi). apply blend_nan.
  - destruct (fuseTwists_run clk n A B HA HB)
      as (fused & Hrun & _ & _ & Hang & _ & Hcov).
    exists fused. split; [exact Hrun|].
    rewrite Hang. cbn [Vector3.z].
    split; [apply blend_nan|].
    intros i Hi. rewrite (Hcov i Hi). apply blend_nan.
Qed.

Lemma nan_input_gives_nan_output_witness :
  exists fused tf,
    fusePoses clock_9
      (mkNode (Some pose_A_nan) (Some pose_B) None None 0.5 0.5 0.5 0.5)
      = Some (tt,
              mkNode (Some pose_A_nan) (Some pose_B) None None
                0.5 0.5 0.5 0.5,
              [final_pose_pub_ fused; tf_broadcaster_ tf]) /\
    Point.y (pose_position fused) = nan.
Proof.
  destruct (nan_input_gives_nan_output clock_9
              (mkNode (Some pose_A_nan) (Some pose_B) None None
                 0.5 0.5 0.5 0.5)) as [Hp _].
  destruct (Hp pose_A_nan pose_B eq_refl eq_refl)
    as (fused & tf & Hrun & _ & Hy & _).
  exists fused, tf. split; [exact Hrun|]. apply Hy. reflexivity.
Defined.

(** ** Which sample comes last *)

(** X10. Which of the two samples of a pair arrived last makes no
    difference to what is sent: a lidar sample arriving at a node that
    holds a gnss sample gives the same fused pose and transform as that
    gnss sample arriving at a node that holds that lidar sample, at the
    same clock reading and weights; likewise for the two twist
    subscriptions. *)
Theorem either_arrival_order_sends_the_same (clk : Time.t) :
  (forall l g n n',
     last_gnss_msg_ n = Some g ->
     last_lidar_msg_ n' = Some l ->
     lidar_weight_ n = lidar_weight_ n' ->
     gnss_weight_ n = gnss_weight_ n' ->
     exists out,
       out <> [] /\
       dispatch (lidar_pose_sub_ l) clk n
         = Some (tt, set_last_lidar_msg_ (Some l) n, out) /\
       dispatch (gnss_pose_sub_ g) clk n'
         = Some (tt, set_last_gnss_msg_ (Some g) n', out)) /\
  (forall e f n n',
     last_filter_twist_msg_ n = Some f ->
     last_ekf_twist_msg_ n' = Some e ->
     ekf_twist_weight_ n = ekf_twist_weight_ n' ->
     filter_twist_weight_ n = filter_twist_weight_ n' ->
     exists out,
       out <> [] /\
       dispatch (ekf_twist_sub_ e) clk n
         = Some (tt, set_last_ekf_twist_msg_ (Some e) n, out) /\
       dispatch (filter_twist_sub_ f) clk n'
         = Some (tt, set_last_filter_twist_msg_ (Some f) n', out)).
Proof.
  split.
  - intros l g n n' Hg Hl W1 W2.
    destruct (fusePoses_run clk (set_last_lidar_msg_ (Some l) n) l g
                eq_refl Hg) as (p & tf & Hrun & _).
    exists [final_pose_pub_ p; tf_broadcaster_ tf].
    split; [discriminate|].
    rewrite !dispatch_run.
    cbn [role_of counterpart cached pair_of fuse store].
    rewrite Hg, Hl, !bool_decide_eq_true_2 by eauto.
    split; [exact Hrun|].
    pose proof (fuse_same_pair_state position_pair clk
      (set_last_lidar_msg_ (Some l) n) (set_last_gnss_msg_ (Some g) n'))
      as Hs.
    destruct (fusePoses_run clk (set_last_gnss_msg_ (Some g) n') l g
                Hl eq_refl) as (p' & tf' & Hrun' & _).
    cbn [fuse] in Hs. rewrite Hrun, Hrun' in Hs. cbn [sent] in Hs.
    assert (E : Some [final_pose_pub_ p; tf_broadcaster_ tf]
                = Some [final_pose_pub_ p'; tf_broadcaster_ tf'])
      by (apply Hs; cbn; auto).
    injection E as -> ->. exact Hrun'.
  - intros e f n n' Hf He W1 W2.
    destruct (fuseTwists_run clk (set_last_ekf_twist_msg_ (Some e) n) e f
                eq_refl Hf) as (p & Hrun & _).
    exists [fused_twist_pub_ p].
    split; [discriminate|].
    rewrite !dispatch_run.
    cbn [role_of counterpart cached pair_of fuse store].
    rewrite Hf, He, !bool_decide_eq_true_2 by eauto.
    split; [exact Hrun|].
    pose proof (fuse_same_pair_state rate_pair clk
      (set_last_ekf_twist_msg_ (Some e) n)
      (set_last_filter_twist_msg_ (Some f) n')) as Hs.
    destruct (fuseTwists_run clk (set_last_filter_twist_msg_ (Some f) n')
                e f He eq_refl) as (p' & Hrun' & _).
    cbn [fuse] in Hs. rewrite Hrun, Hrun' in Hs. cbn [sent] in Hs.
    assert (E : Some [fused_twist_pub_ p] = Some [fused_twist_pub_ p'])
      by (apply Hs; cbn; auto).
    injection E as ->. exact Hrun'.
Qed.

Lemma either_arrival_order_sends_the_same_witness :
  exists out,
    out <> [] /\
    dispatch (lidar_pose_sub_ pose_A) clock_9
      (mkNode None (Some pose_B) None None 0.5 0.5 0.5 0.5)
      = Some (tt, mkNode (Some pose_A) (Some pose_B) None None
                    0.5 0.5 0.5 0.5, out) /\
    dispatch (gnss_pose_sub_ pose_B) clock_9
      (mkNode (Some pose_A) None None None 0.5 0.5 0.5 0.5)
      = Some (tt, mkNode (Some pose_A) (Some pose_B) None None
                    0.5 0.5 0.5 0.5, out).
Proof.
  destruct (either_arrival_order_sends_the_same clock_9) as [Hp _].
  apply (Hp pose_A pose_B
           (mkNode None (Some pose_B) None None 0.5 0.5 0.5 0.5)
           (mkNode (Some pose_A) None None None 0.5 0.5 0.5 0.5));
    reflexivity.
Defined.

(** ** Bounds and symmetry *)

(** X11. A run sends at most one fused sample of a pair per arrival on
    that pair, from any node, and never more than two messages per
    arrival in all; with nothing delivered nothing is sent. *)
Theorem at_most_one_fusion_per_arrival (p : Pair)
    (arrivals : list (Time.t * Arrival)) (n : PoseFusionNode) :
  exists out,
    spin arrivals n = Some (stores arrivals n, out) /\
    (count (is_fused_sample p) out <= arrivals_on p arrivals)%nat /\
    (length out <= 2 * length arrivals)%nat /\
    (arrivals = [] -> out = []).
Proof.
  revert n. induction arrivals as [|[clk a] rest IH]; intros n.
  - exists []. repeat split; cbn; lia.
  - destruct (dispatch_total a clk n) as (out1 & Hrun & Hnone & Hsome & Hby).
    destruct (dispatch_cases a clk n) as (out1' & Hrun' & Hcase).
    assert (out1' = out1) as -> by congruence.
    destruct (IH (store a n)) as (out2 & Hspin & Hcount & Hlen & _).
    exists (out1 ++ out2). split.
    { rewrite (spin_cons _ _ _ _ _ Hrun), Hspin. reflexivity. }
    split; [|split; [|discriminate]].
    + rewrite count_app. unfold arrivals_on in *. rewrite filter_cons.
      cbn [snd].
      destruct (decide (pair_of (role_of a) = p)) as [Hp|Hp].
      * cbn [length].
        destruct (cached n (counterpart (role_of a))).
        -- destruct (Hsome eq_refl) as (_ & Hone & _).
           rewrite <- Hp at 1. rewrite Hone. lia.
        -- rewrite (Hnone eq_refl). cbn. lia.
      * rewrite (count_other_pair p _ out1 Hby) by congruence. lia.
    + rewrite length_app. cbn [length].
      destruct Hcase as [->|[(? & ? & ? & ? & _ & _ & -> & _)
                            |(? & ? & ? & _ & _ & -> & _)]];
        cbn [length]; lia.
Qed.

(** X12. Symmetry of the covariance is kept: when the 6x6 covariance
    matrices of both samples are symmetric, so is the fused one, for the
    pose and for the twist, under any weights. *)
Theorem fused_covariance_stays_symmetric (clk : Time.t)
    (n : PoseFusionNode) :
  (forall A B,
     last_lidar_msg_ n = Some A ->
     last_gnss_msg_ n = Some B ->
     symmetric36 (pose_covariance A) ->
     symmetric36 (pose_covariance B) ->
     exists fused tf,
       fusePoses clk n
         = Some (tt, n, [final_pose_pub_ fused; tf_broadcaster_ tf]) /\
       symmetric36 (pose_covariance fused)) /\
  (forall A B,
     last_ekf_twist_msg_ n = Some A ->
     last_filter_twist_msg_ n = Some B ->
     symmetric36 (twist_covariance A) ->
     symmetric36 (twist_covariance B) ->
     exists fused,
       fuseTwists clk n = Some (tt, n, [fused_twist_pub_ fused]) /\
       symmetric36 (twist_covariance fused)).
Proof.
  split; intros A B HA HB SA SB.
  - destruct (fusePoses_run clk n A B HA HB)
      as (fused & tf & Hrun & _ & _ & _ & _ & _ & Hcov).
    exists fused, tf. split; [exact Hrun|].
    intros i j Hi Hj.
    rewrite !Hcov by lia. rewrite (SA i j Hi Hj), (SB i j Hi Hj).
    reflexivity.
  - destruct (fuseTwists_run clk n A B HA HB)
      as (fused & Hrun & _ & _ & _ & _ & Hcov).
    exists fused. split; [exact Hrun|].
    intros i j Hi Hj.
    rewrite !Hcov by lia. rewrite (SA i j Hi Hj), (SB i j Hi Hj).
    reflexivity.
Qed.

Lemma fused_covariance_stays_symmetric_witness :
  exists fused tf,
    fusePoses clock_9 (node_with 0.25 0.75)
      = Some (tt, node_with 0.25 0.75,
              [final_pose_pub_ fused; tf_broadcaster_ tf]) /\
    symmetric36 (pose_covariance fused).
Proof.
  destruct (fused_covariance_stays_symmetric clock_9 (node_with 0.25 0.75))
    as [Hp _].
  apply (Hp pose_A pose_B eq_refl eq_refl);
    intros i j Hi Hj;
    do 6 (destruct i as [|i];
          [do 6 (destruct j as [|j]; [reflexivity|]); lia|]);
    lia.
Defined.
